(** * Configuration synthesis from MultiClusterIngress resources

    A shallow embedding of the synthesis and admission code of the
    multi-cluster ingress controller ([src/unnamed/part_000], package
    [controller]): the upstream builder [createUpstreamsFromMCIs], the
    server builder [createServersFromMCIs], the location, canary-merge and
    assembly steps of [getBackendServersFromMCIs], and the admission
    overlap check [checkOverlapWithMCI].

    Go maps of pointers ([map[string]*ingress.Backend],
    [map[string]*ingress.Server]) become stdpp [gmap]s that are threaded
    through the loops; every in-place mutation of a pointed-to object is
    written back under its key.  A Go nil-pointer dereference (a runtime
    panic) is [None] in the functions that can reach one.  The collaborators
    outside the core (endpoint resolution, service and secret lookups, x509
    hostname checks) are the fields of a [Store] record. *)

From Stdlib Require Import String Ascii List Bool ZArith Sorting.Sorted
  Sorting.Permutation Lia.
From stdpp Require Import base gmap strings list.

Import ListNotations.
Open Scope string_scope.

(* ------------------------------------------------------------------ *)
(** ** Resource model *)

(** [networking.PathType]; a [*PathType] is an [option PathType] (nil is
    [None]). *)
Inductive PathType := PathTypeExact | PathTypePrefix | PathTypeImplementationSpecific.

Definition PathType_eqb (a b : PathType) : bool :=
  match a, b with
  | PathTypeExact, PathTypeExact
  | PathTypePrefix, PathTypePrefix
  | PathTypeImplementationSpecific, PathTypeImplementationSpecific => true
  | _, _ => false
  end.

(** [apiequality.Semantic.DeepEqual] on two [*PathType]: equal when both
    are nil or both point to equal values. *)
Definition pathTypeDeepEqual (a b : option PathType) : bool :=
  match a, b with
  | None, None => true
  | Some x, Some y => PathType_eqb x y
  | _, _ => false
  end.

(** [networking.IngressServiceBackend]: service name and port (number or
    name, as the string [port.String()] gives). *)
Record ServiceBackend := mkServiceBackend {
  svc_name : string;
  svc_port : string
}.

(** [networking.HTTPIngressPath]; [p_service = None] is a non-service
    backend ([path.Backend.Service == nil]). *)
Record HTTPPath := mkHTTPPath {
  p_path : string;
  p_type : option PathType;
  p_service : option ServiceBackend
}.

(** [networking.IngressRule]; [r_http = None] is [rule.HTTP == nil]. *)
Record Rule := mkRule {
  r_host : string;
  r_http : option (list HTTPPath)
}.

Record IngressTLS := mkTLS {
  tls_hosts : list string;
  tls_secret : string
}.

(** Canary annotations ([anns.Canary]). *)
Record CanaryConfig := mkCanary {
  c_enabled : bool;
  c_weight : Z;
  c_weight_total : Z;
  c_header : string;
  c_header_value : string;
  c_header_pattern : string;
  c_cookie : string
}.

Record TrafficShapingPolicy := mkTSP {
  tsp_weight : Z;
  tsp_weight_total : Z;
  tsp_header : string;
  tsp_header_value : string;
  tsp_header_pattern : string;
  tsp_cookie : string
}.

Definition emptyTSP : TrafficShapingPolicy := mkTSP 0 0 "" "" "" "".

Record Redirect := mkRedirect {
  red_url : string;
  red_from_to_www : bool
}.

Record Rewrite := mkRewrite {
  rw_target : string;
  rw_use_regex : bool
}.

Definition emptyRedirect : Redirect := mkRedirect "" false.
Definition emptyRewrite : Rewrite := mkRewrite "" false.

(** The custom default backend of a location ([*apiv1.Service] of the
    [default-backend] annotation): namespace, name and service ports. *)
Record CustomDefaultBackend := mkCDB {
  cdb_namespace : string;
  cdb_name : string;
  cdb_ports : list string
}.

(** The parsed annotation bundle [mci.ParsedAnnotations], restricted to
    the fields the synthesis code reads.  [a_policy] stands for the rest of
    the per-location policy (auth, proxy, ...) that
    [locationApplyAnnotations] copies without looking at it. *)
Record Annotations := mkAnnotations {
  a_canary : CanaryConfig;
  a_load_balancing : string;
  a_upstream_hash_by : string;
  a_service_upstream : bool;
  a_ssl_passthrough : bool;
  a_ssl_ciphers : string;
  a_affinity_type : string;
  a_canary_behavior : string;
  a_redirect : Redirect;
  a_rewrite : Rewrite;
  a_policy : string;
  a_default_backend : option CustomDefaultBackend
}.

(** The result of [parser.GetBoolAnnotationFromMCI("canary", mci)]:
    annotation absent ([errors.ErrMissingAnnotations]), present but not a
    boolean (another error), or a boolean value with a nil error. *)
Inductive BoolAnnotation := AnnMissing | AnnInvalid | AnnValue (b : bool).

(** [ingress.MultiClusterIngress]: identity, raw canary annotation, parsed
    annotations and spec.  [m_default_backend] is
    [Spec.DefaultBackend.Service] when both pointers are non-nil. *)
Record MCI := mkMCI {
  m_namespace : string;
  m_name : string;
  m_canary_annotation : BoolAnnotation;
  m_anns : Annotations;
  m_default_backend : option ServiceBackend;
  m_rules : list Rule;
  m_tls : list IngressTLS
}.

(** [ingress.Backend]. [b_service] is the [*apiv1.Service], named by its
    key ([None] is nil). *)
Record Backend := mkBackend {
  b_name : string;
  b_port : string;
  b_noserver : bool;
  b_tsp : TrafficShapingPolicy;
  b_alternative_backends : list string;
  b_endpoints : list string;
  b_load_balancing : string;
  b_upstream_hash_by : string;
  b_service : option string;
  b_affinity_type : string;
  b_ssl_passthrough : bool
}.

(** [ingress.Location]. *)
Record Location := mkLocation {
  l_path : string;
  l_path_type : option PathType;
  l_backend : string;
  l_is_def_backend : bool;
  l_service : option string;
  l_port : string;
  l_mci : option MCI;
  l_redirect : Redirect;
  l_rewrite : Rewrite;
  l_policy : string;
  l_default_backend : option CustomDefaultBackend;
  l_default_backend_upstream_name : string
}.

Record X509 := mkX509 {
  x509_dns_names : list string;
  x509_common_name : string
}.

(** [ingress.SSLCert]: [cert_certificate = None] is
    [cert.Certificate == nil]. *)
Record SSLCert := mkSSLCert {
  cert_name : string;
  cert_certificate : option X509
}.

(** [ingress.Server]. *)
Record Server := mkServer {
  s_hostname : string;
  s_locations : list Location;
  s_ssl_cert : option SSLCert;
  s_ssl_passthrough : bool;
  s_ssl_ciphers : string;
  s_redirect_from_to_www : bool
}.

(** Log records ([klog.Infof], [klog.Warningf], [klog.Errorf]). *)
Inductive Level := LInfo | LWarning | LError.

Definition LogEntry : Type := (Level * string)%type.

Definition is_warning (e : LogEntry) : bool :=
  match fst e with LWarning => true | _ => false end.

(** The collaborators the code calls through the controller [n] and its
    store. *)
Record Store := mkStore {
  (** [names.GenerateDerivedServiceName] *)
  st_derived_name : string -> string;
  (** [n.serviceEndpoints(svcKey, port)]: endpoints and whether an error
      was returned *)
  st_service_endpoints : string -> string -> list string * bool;
  (** [n.getServiceClusterEndpoint(svcKey, backend)]; [None] is an error *)
  st_cluster_endpoint : string -> ServiceBackend -> option string;
  (** [n.store.GetService(svcKey)]; [None] is an error *)
  st_get_service : string -> option string;
  (** [GetBackendConfiguration().LoadBalancing] *)
  st_load_balancing : string;
  (** endpoints of the default backend service *)
  st_default_endpoints : list string;
  (** [n.store.GetLocalSSLCert(key)]; [None] is an error *)
  st_get_local_ssl_cert : string -> option SSLCert;
  (** [n.getDefaultSSLCertificate()] *)
  st_default_ssl_cert : SSLCert;
  (** [cert.Certificate.VerifyHostname(host) == nil] *)
  st_verify_hostname : X509 -> string -> bool;
  (** [verifyHostname(host, cert.Certificate) == nil] (common name) *)
  st_verify_common_name : X509 -> string -> bool;
  (** [getEndpoints(location.DefaultBackend, &port, TCP, ...)] *)
  st_custom_endpoints : CustomDefaultBackend -> string -> list string
}.

(* ------------------------------------------------------------------ *)
(** ** Names and constructors defined outside [src/] *)

(** Modelled from the spec: [rootLocation], [defServerName] and
    [defUpstreamName] are constants of the controller package that are not
    in [src/]; the spec calls them the root path, the reserved wildcard
    hostname of the catch-all server, and the reserved key of the default
    backend. *)
Definition rootLocation : string := "/".
Definition defServerName : string := "_".
Definition defUpstreamName : string := "upstream-default-backend".

(** Modelled from the spec: [upstreamName] (not in [src/]), the backend
    identity key "deterministically derived from (namespace, service name,
    service port)". *)
Definition upstreamName (namespace : string) (svc : ServiceBackend) : string :=
  namespace ++ "-" ++ svc_name svc ++ "-" ++ svc_port svc.

(** Modelled from the spec: [newUpstream] (not in [src/]) "creates a new
    Backend" for a key: the name is set, every other field is empty. *)
Definition newUpstream (name : string) : Backend :=
  mkBackend name "" false emptyTSP [] [] "" "" None "" false.

(** Modelled from the spec: [n.getDefaultUpstream()] (not in [src/]), the
    default backend under its reserved name. *)
Definition getDefaultUpstream (st : Store) : Backend :=
  mkBackend defUpstreamName "" false emptyTSP [] (st_default_endpoints st) ""
    "" None "" false.

(** Modelled from the spec: [locationApplyAnnotations] (not in [src/]),
    which flattens the resource's annotation bundle into the location's
    policy (redirect, rewrite, custom default backend and the rest). *)
Definition locationApplyAnnotations (loc : Location) (anns : Annotations) : Location :=
  mkLocation (l_path loc) (l_path_type loc) (l_backend loc)
    (l_is_def_backend loc) (l_service loc) (l_port loc) (l_mci loc)
    (a_redirect anns) (a_rewrite anns) (a_policy anns)
    (a_default_backend anns) (l_default_backend_upstream_name loc).

(** The host of a rule, the catch-all name for an empty host. *)
Definition ruleHost (r : Rule) : string :=
  if String.eqb (r_host r) "" then defServerName else r_host r.

(** [p == nil] for a pointer. *)
Definition isNone {A} (o : option A) : bool :=
  match o with None => true | Some _ => false end.

Definition isCanary (mci : MCI) : bool := c_enabled (a_canary (m_anns mci)).

(* ------------------------------------------------------------------ *)
(** ** Upstream builder: [createUpstreamsFromMCIs] *)

Abbreviation Upstreams := (gmap string Backend).

(** The default-backend branch (lines 389-444).  There is no test for an
    existing entry: [upstreams[defBackend] = newUpstream(defBackend)]. *)
Definition createDefBackendUpstream (st : Store) (mci : MCI) (upstreams : Upstreams)
  : Upstreams :=
  match m_default_backend mci with
  | None => upstreams
  | Some svc =>
      let anns := m_anns mci in
      let defBackend := upstreamName (m_namespace mci) svc in
      let b := newUpstream defBackend in
      let lb := if String.eqb (a_load_balancing anns) "" then st_load_balancing st
                else a_load_balancing anns in
      let svcKey := m_namespace mci ++ "/" ++ st_derived_name st (svc_name svc) in
      let endps0 :=
        if a_service_upstream anns then
          match st_cluster_endpoint st svcKey svc with
          | Some endpoint => [endpoint]
          | None => b_endpoints b
          end
        else b_endpoints b in
      let '(noserver, tsp) :=
        if c_enabled (a_canary anns) then
          let c := a_canary anns in
          (true, mkTSP (c_weight c) (c_weight_total c) (c_header c)
                   (c_header_value c) (c_header_pattern c) (c_cookie c))
        else (b_noserver b, b_tsp b) in
      let endps :=
        match endps0 with
        | [] => (endps0 ++ fst (st_service_endpoints st svcKey (svc_port svc)))%list
        | _ => endps0
        end in
      <[defBackend := mkBackend (b_name b) (b_port b) noserver tsp
                        (b_alternative_backends b) endps lb
                        (a_upstream_hash_by anns) (st_get_service st svcKey)
                        (b_affinity_type b) (b_ssl_passthrough b)]> upstreams
  end.

(** One rule path (lines 451-518): an existing key is skipped; the two
    [continue]s on lookup errors leave the half-built backend in the map. *)
Definition createPathUpstream (st : Store) (mci : MCI) (upstreams : Upstreams)
  (path : HTTPPath) : Upstreams :=
  match p_service path with
  | None => upstreams
  | Some svc =>
      let anns := m_anns mci in
      let name := upstreamName (m_namespace mci) svc in
      match upstreams !! name with
      | Some _ => upstreams
      | None =>
          let b := newUpstream name in
          let lb := if String.eqb (a_load_balancing anns) "" then st_load_balancing st
                    else a_load_balancing anns in
          let svcKey := m_namespace mci ++ "/" ++ st_derived_name st (svc_name svc) in
          let endps0 :=
            if a_service_upstream anns then
              match st_cluster_endpoint st svcKey svc with
              | Some endpoint => [endpoint]
              | None => b_endpoints b
              end
            else b_endpoints b in
          let '(noserver, tsp) :=
            if c_enabled (a_canary anns) then
              let c := a_canary anns in
              (true, mkTSP (c_weight c) 0 (c_header c) (c_header_value c)
                       (c_header_pattern c) (c_cookie c))
            else (b_noserver b, b_tsp b) in
          let mk endps service :=
            mkBackend name (svc_port svc) noserver tsp (b_alternative_backends b)
              endps lb (a_upstream_hash_by anns) service (b_affinity_type b)
              (b_ssl_passthrough b) in
          let endpsE :=
            match endps0 with
            | [] =>
                let '(endp, err) := st_service_endpoints st svcKey (svc_port svc) in
                if err then None else Some endp
            | _ => Some endps0
            end in
          match endpsE with
          | None => <[name := mk endps0 (b_service b)]> upstreams
          | Some endps =>
              match st_get_service st svcKey with
              | None => <[name := mk endps (b_service b)]> upstreams
              | Some s => <[name := mk endps (Some s)]> upstreams
              end
          end
      end
  end.

Definition createRuleUpstreams (st : Store) (mci : MCI) (upstreams : Upstreams)
  (rule : Rule) : Upstreams :=
  match r_http rule with
  | None => upstreams
  | Some paths => fold_left (createPathUpstream st mci) paths upstreams
  end.

Definition createMCIUpstreams (st : Store) (upstreams : Upstreams) (mci : MCI)
  : Upstreams :=
  fold_left (createRuleUpstreams st mci) (m_rules mci)
    (createDefBackendUpstream st mci upstreams).

Definition createUpstreamsFromMCIs (st : Store) (mcis : list MCI)
  (defaultUpstream : Backend) : Upstreams :=
  fold_left (createMCIUpstreams st) mcis {[ defUpstreamName := defaultUpstream ]}.

(* ------------------------------------------------------------------ *)
(** ** Server builder: [createServersFromMCIs] *)

Abbreviation Servers := (gmap string Server).

Definition set_locations (s : Server) (locs : list Location) : Server :=
  mkServer (s_hostname s) locs (s_ssl_cert s) (s_ssl_passthrough s)
    (s_ssl_ciphers s) (s_redirect_from_to_www s).

Definition set_ssl_cert (s : Server) (c : option SSLCert) : Server :=
  mkServer (s_hostname s) (s_locations s) c (s_ssl_passthrough s)
    (s_ssl_ciphers s) (s_redirect_from_to_www s).

Definition set_ssl_ciphers (s : Server) (c : string) : Server :=
  mkServer (s_hostname s) (s_locations s) (s_ssl_cert s) (s_ssl_passthrough s)
    c (s_redirect_from_to_www s).

Definition set_redirect_from_to_www (s : Server) : Server :=
  mkServer (s_hostname s) (s_locations s) (s_ssl_cert s) (s_ssl_passthrough s)
    (s_ssl_ciphers s) true.

(** The root location of the catch-all server (lines 557-573); the proxy
    and log settings it carries are not modelled. *)
Definition defaultRootLocation (defaultUpstream : Backend) : Location :=
  mkLocation rootLocation (Some PathTypePrefix) (b_name defaultUpstream) true
    (b_service defaultUpstream) "" None emptyRedirect emptyRewrite "" None "".

Definition initialServers (st : Store) (defaultUpstream : Backend) : Servers :=
  {[ defServerName := mkServer defServerName [defaultRootLocation defaultUpstream]
                        (Some (st_default_ssl_cert st)) false "" false ]}.

(** The placeholder root location of a new server (lines 633-641). *)
Definition placeholderLocation (un : string) (mci : MCI) : Location :=
  locationApplyAnnotations
    (mkLocation rootLocation (Some PathTypePrefix) un true (Some "") "" (Some mci)
       emptyRedirect emptyRewrite "" None "")
    (m_anns mci).

(** Lines 600-618: [defLoc := servers[defServerName].Locations[0]] is
    rebound to the resource's backend; the zero-rule case additionally
    clears the placeholder flag and applies the annotations, restoring the
    redirect and rewrite settings.  The catch-all server always exists with
    at least one location here, so the two fall-through branches are not
    reached. *)
Definition bindCatchAll (mci : MCI) (bu : Backend) (servers : Servers) : Servers :=
  match servers !! defServerName with
  | None => servers
  | Some s =>
      match s_locations s with
      | [] => servers
      | defLoc :: rest =>
          let defLoc1 :=
            mkLocation (l_path defLoc) (l_path_type defLoc) (b_name bu)
              (l_is_def_backend defLoc) (b_service bu) (l_port defLoc) (Some mci)
              (l_redirect defLoc) (l_rewrite defLoc) (l_policy defLoc)
              (l_default_backend defLoc) (l_default_backend_upstream_name defLoc) in
          let defLoc2 :=
            if l_is_def_backend defLoc1 && Nat.eqb (length (m_rules mci)) 0 then
              let originalRedirect := l_redirect defLoc1 in
              let originalRewrite := l_rewrite defLoc1 in
              let l := locationApplyAnnotations
                         (mkLocation (l_path defLoc1) (l_path_type defLoc1)
                            (l_backend defLoc1) false (l_service defLoc1)
                            (l_port defLoc1) (l_mci defLoc1) (l_redirect defLoc1)
                            (l_rewrite defLoc1) (l_policy defLoc1)
                            (l_default_backend defLoc1)
                            (l_default_backend_upstream_name defLoc1))
                         (m_anns mci) in
              mkLocation (l_path l) (l_path_type l) (l_backend l)
                (l_is_def_backend l) (l_service l) (l_port l) (l_mci l)
                originalRedirect originalRewrite (l_policy l)
                (l_default_backend l) (l_default_backend_upstream_name l)
            else defLoc1 in
          <[defServerName := set_locations s (defLoc2 :: rest)]> servers
      end
  end.

(** First loop of [createServersFromMCIs] (lines 576-653), one resource. *)
Definition createServersPass1 (upstreams : Upstreams) (defaultUpstream : Backend)
  (servers : Servers) (mci : MCI) : Servers :=
  if isCanary mci then servers
  else
    let anns := m_anns mci in
    let '(un, servers1) :=
      match m_default_backend mci with
      | None => (b_name defaultUpstream, servers)
      | Some svc =>
          match upstreams !! upstreamName (m_namespace mci) svc with
          | None => (b_name defaultUpstream, servers)
          | Some backendUpstream =>
              (b_name backendUpstream, bindCatchAll mci backendUpstream servers)
          end
      end in
    fold_left
      (fun servers rule =>
         let host := ruleHost rule in
         match servers !! host with
         | Some _ => servers
         | None =>
             <[host := mkServer host [placeholderLocation un mci] None
                         (a_ssl_passthrough anns) (a_ssl_ciphers anns) false]> servers
         end)
      (m_rules mci) servers1.

(** Modelled from the spec: [toLowerCaseASCII] (not in [src/]); the TLS
    host lists are matched "case-insensitive": ASCII upper-case letters are
    mapped to lower case, every other byte is kept. *)
Definition lowerAscii (c : ascii) : ascii :=
  let n := nat_of_ascii c in
  if (65 <=? n)%nat && (n <=? 90)%nat then ascii_of_nat (n + 32) else c.

Fixpoint toLowerCaseASCII (s : string) : string :=
  match s with
  | EmptyString => EmptyString
  | String c r => String (lowerAscii c) (toLowerCaseASCII r)
  end.

(** Second loop of [extractTLSSecretNameFromMCI] (lines 809-834): the
    first secret whose certificate validates the host. *)
Fixpoint scanTLSBySAN (st : Store) (namespace host : string)
  (tlss : list IngressTLS) : string * list LogEntry :=
  match tlss with
  | [] => ("", [])
  | tls :: rest =>
      if String.eqb (tls_secret tls) "" then scanTLSBySAN st namespace host rest
      else
        let secrKey := namespace ++ "/" ++ tls_secret tls in
        match st_get_local_ssl_cert st secrKey with
        | None =>
            let '(r, lg) := scanTLSBySAN st namespace host rest in
            (r, (LWarning, "Error getting SSL certificate") :: lg)
        | Some cert =>
            match cert_certificate cert with
            | None => scanTLSBySAN st namespace host rest
            | Some x =>
                if st_verify_hostname st x host
                then (tls_secret tls, [(LInfo, "Found SSL certificate matching host")])
                else scanTLSBySAN st namespace host rest
            end
        end
  end.

(** [extractTLSSecretNameFromMCI] (lines 791-837). *)
Definition extractTLSSecretNameFromMCI (st : Store) (host : string) (mci : MCI)
  : string * list LogEntry :=
  let lowercaseHost := toLowerCaseASCII host in
  match find (fun tls => existsb (fun h => String.eqb (toLowerCaseASCII h) lowercaseHost)
                           (tls_hosts tls)) (m_tls mci) with
  | Some tls => (tls_secret tls, [])
  | None => scanTLSBySAN st (m_namespace mci) host (m_tls mci)
  end.

(** Certificate selection for one host (lines 703-757).  The expiry
    warnings at the end read the wall clock and are not modelled. *)
Definition serverTLSStep (st : Store) (mci : MCI) (host : string) (s : Server)
  : Server * list LogEntry :=
  match s_ssl_cert s with
  | Some _ => (s, [])
  | None =>
      match m_tls mci with
      | [] => (s, [(LInfo, "does not contains a TLS section")])
      | _ =>
          let '(tlsSecretName, lg) := extractTLSSecretNameFromMCI st host mci in
          let dflt := Some (st_default_ssl_cert st) in
          if String.eqb tlsSecretName "" then
            (set_ssl_cert s dflt,
             app lg [(LInfo, "secretName is empty. Using default certificate")])
          else
            let secrKey := m_namespace mci ++ "/" ++ tlsSecretName in
            match st_get_local_ssl_cert st secrKey with
            | None =>
                (set_ssl_cert s dflt,
                 app lg [(LWarning, "Error getting SSL certificate. Using default certificate")])
            | Some cert =>
                match cert_certificate cert with
                | None =>
                    (set_ssl_cert s dflt,
                     app lg [(LWarning, "does not contain a valid SSL certificate");
                            (LWarning, "Using default certificate")])
                | Some x =>
                    if st_verify_hostname st x host then (set_ssl_cert s (Some cert), lg)
                    else if st_verify_common_name st x host then
                      (set_ssl_cert s (Some cert),
                       app lg [(LWarning, "Unexpected error validating SSL certificate");
                              (LWarning, "Validating certificate against DNS names")])
                    else
                      (set_ssl_cert s dflt,
                       app lg [(LWarning, "Unexpected error validating SSL certificate");
                              (LWarning, "Validating certificate against DNS names");
                              (LWarning, "does not contain a Common Name or Subject Alternative Name");
                              (LWarning, "Using default certificate")])
                end
            end
      end
  end.

(** Second loop of [createServersFromMCIs] (lines 656-759), one rule: SSL
    ciphers (first wins) and the certificate.  Aliases and server snippets
    are not modelled.  Every non-canary rule host has a server after the
    first loop, so the [None] branch is not reached. *)
Definition createServersPass2Rule (st : Store) (mci : MCI)
  (acc : Servers * list LogEntry) (rule : Rule) : Servers * list LogEntry :=
  let '(servers, lg) := acc in
  let host := ruleHost rule in
  match servers !! host with
  | None => acc
  | Some s =>
      let anns := m_anns mci in
      let s1 := if String.eqb (s_ssl_ciphers s) "" && negb (String.eqb (a_ssl_ciphers anns) "")
                then set_ssl_ciphers s (a_ssl_ciphers anns) else s in
      let '(s2, lg2) := serverTLSStep st mci host s1 in
      (<[host := s2]> servers, (lg ++ lg2)%list)
  end.

Definition createServersPass2 (st : Store) (acc : Servers * list LogEntry) (mci : MCI)
  : Servers * list LogEntry :=
  if isCanary mci then acc
  else fold_left (createServersPass2Rule st mci) (m_rules mci) acc.

Definition createServersFromMCIs (st : Store) (mcis : list MCI) (upstreams : Upstreams)
  (defaultUpstream : Backend) : Servers * list LogEntry :=
  let servers := fold_left (createServersPass1 upstreams defaultUpstream) mcis
                   (initialServers st defaultUpstream) in
  fold_left (createServersPass2 st) mcis (servers, []).

(* ------------------------------------------------------------------ *)
(** ** Locations: the rule loop of [getBackendServersFromMCIs] *)

Definition set_affinity_type (b : Backend) (t : string) : Backend :=
  mkBackend (b_name b) (b_port b) (b_noserver b) (b_tsp b) (b_alternative_backends b)
    (b_endpoints b) (b_load_balancing b) (b_upstream_hash_by b) (b_service b) t
    (b_ssl_passthrough b).

Definition set_alternative_backends (b : Backend) (alts : list string) : Backend :=
  mkBackend (b_name b) (b_port b) (b_noserver b) (b_tsp b) alts
    (b_endpoints b) (b_load_balancing b) (b_upstream_hash_by b) (b_service b)
    (b_affinity_type b) (b_ssl_passthrough b).

Definition set_ssl_passthrough (b : Backend) : Backend :=
  mkBackend (b_name b) (b_port b) (b_noserver b) (b_tsp b) (b_alternative_backends b)
    (b_endpoints b) (b_load_balancing b) (b_upstream_hash_by b) (b_service b)
    (b_affinity_type b) true.

(** Lines 203-209: a placeholder location taken over by a backend. *)
Definition replaceLocation (mci : MCI) (ups : Backend) (loc : Location) : Location :=
  locationApplyAnnotations
    (mkLocation (l_path loc) (l_path_type loc) (b_name ups) false (b_service ups)
       (b_port ups) (Some mci) (l_redirect loc) (l_rewrite loc) (l_policy loc)
       (l_default_backend loc) (l_default_backend_upstream_name loc))
    (m_anns mci).

(** Lines 222-231: a new location. *)
Definition newLocation (mci : MCI) (ups : Backend) (nginxPath : string)
  (pt : option PathType) : Location :=
  locationApplyAnnotations
    (mkLocation nginxPath pt (b_name ups) false (b_service ups) (b_port ups) (Some mci)
       emptyRedirect emptyRewrite "" None "")
    (m_anns mci).

(** The search of lines 180-216 over the server's locations.  It returns
    [addLoc], whether a replaced location asks for the www redirect, and
    the location list.  The search ends ([break]) at the first location with
    the same path, whatever its path type. *)
Fixpoint addOrReplaceLocation (mci : MCI) (ups : Backend) (nginxPath : string)
  (pt : option PathType) (locs : list Location) : bool * bool * list Location :=
  match locs with
  | [] => (true, false, [])
  | loc :: rest =>
      if negb (String.eqb (l_path loc) nginxPath) then
        let '(addLoc, www, rest') := addOrReplaceLocation mci ups nginxPath pt rest in
        (addLoc, www, loc :: rest')
      else if negb (pathTypeDeepEqual (l_path_type loc) pt) then (true, false, locs)
      else if negb (l_is_def_backend loc) then (false, false, locs)
      else
        let loc' := replaceLocation mci ups loc in
        (false, red_from_to_www (l_redirect loc'), loc' :: rest)
  end.

(** One rule path (lines 159-277).  [skey] is the key of the server the
    rule writes to.  The cookie-affinity location lists are not modelled. *)
Definition locationPathStep (mci : MCI) (skey : string)
  (acc : option (Upstreams * Servers)) (path : HTTPPath) : option (Upstreams * Servers) :=
  match acc with
  | None => None
  | Some (upstreams, servers) =>
      match p_service path with
      | None => acc
      | Some svc =>
          let upsName := upstreamName (m_namespace mci) svc in
          match upstreams !! upsName with
          | None => None
          | Some ups =>
              if b_noserver ups then acc
              else
                let nginxPath := if String.eqb (p_path path) "" then rootLocation
                                 else p_path path in
                match servers !! skey with
                | None => None
                | Some server =>
                    let '(addLoc, www, locs) :=
                      addOrReplaceLocation mci ups nginxPath (p_type path)
                        (s_locations server) in
                    let '(locs', www') :=
                      if addLoc then
                        let loc := newLocation mci ups nginxPath (p_type path) in
                        ((locs ++ [loc])%list, www || red_from_to_www (l_redirect loc))
                      else (locs, www) in
                    let server' := set_locations server locs' in
                    let server'' := if www' then set_redirect_from_to_www server' else server' in
                    let ups' := if String.eqb (b_affinity_type ups) ""
                                then set_affinity_type ups (a_affinity_type (m_anns mci))
                                else ups in
                    Some (<[upsName := ups']> upstreams, <[skey := server'']> servers)
                end
          end
      end
  end.

(** One rule (lines 109-278); the mutual-TLS and proxy-SSL settings are not
    modelled. *)
Definition locationRuleStep (mci : MCI) (acc : option (Upstreams * Servers))
  (rule : Rule) : option (Upstreams * Servers) :=
  match acc with
  | None => None
  | Some (upstreams, servers) =>
      let host := ruleHost rule in
      let skey := match servers !! host with
                  | Some _ => host
                  | None => defServerName
                  end in
      if isNone (r_http rule) && negb (String.eqb host defServerName) then acc
      else
        match servers !! skey with
        | None => None
        | Some _ =>
            match r_http rule with
            | None => acc
            | Some paths => fold_left (locationPathStep mci skey) paths acc
            end
        end
  end.

Definition locationsFromMCIs (mcis : list MCI) (acc : option (Upstreams * Servers))
  : option (Upstreams * Servers) :=
  fold_left (fun acc mci => fold_left (locationRuleStep mci) (m_rules mci) acc) mcis acc.

(* ------------------------------------------------------------------ *)
(** ** Canary merger *)

(** Modelled from the spec: [canMergeBackend] (not in [src/]), "mergeable =
    neither side is NoServer, except the alt side is expected to be
    NoServer": the primary is not a [NoServer] backend. *)
Definition canMergeBackend (primary alternative : Backend) : bool :=
  negb (b_noserver primary).

(** [mergeAlternativeBackendByMCI] (lines 949-971): success flag, primary
    and alternative after the merge. *)
Definition mergeAlternativeBackendByMCI (mci : MCI) (priUps altUps : Backend)
  : bool * Backend * Backend :=
  if b_noserver priUps then (false, priUps, altUps)
  else if existsb (String.eqb (b_name altUps)) (b_alternative_backends priUps)
  then (true, priUps, altUps)
  else
    let altUps' :=
      if negb (String.eqb (a_canary_behavior (m_anns mci)) "legacy")
      then set_affinity_type altUps (b_affinity_type priUps) else altUps in
    (true,
     set_alternative_backends priUps
       ((b_alternative_backends priUps ++ [b_name altUps])%list),
     altUps').

(** The scan over a server's locations (lines 864-879 and 923-938).
    [matches] is the path test of the rule case ([None]: a nil path type is
    dereferenced).  The result carries the upstreams, the alternative
    backend, [merged] and [altEqualsPri]. *)
Fixpoint scanLocations (mci : MCI) (matches : Location -> option bool)
  (altKey : string) (locs : list Location) (upstreams : Upstreams)
  (altUps : Backend) (merged : bool) : option (Upstreams * Backend * bool * bool) :=
  match locs with
  | [] => Some (upstreams, altUps, merged, false)
  | loc :: rest =>
      match upstreams !! l_backend loc with
      | None => None
      | Some priUps =>
          if String.eqb (b_name altUps) (b_name priUps)
          then Some (upstreams, altUps, merged, true)
          else if canMergeBackend priUps altUps then
            match matches loc with
            | None => None
            | Some false => scanLocations mci matches altKey rest upstreams altUps merged
            | Some true =>
                let '(m, priUps', altUps') := mergeAlternativeBackendByMCI mci priUps altUps in
                scanLocations mci matches altKey rest
                  (<[altKey := altUps']> (<[l_backend loc := priUps']> upstreams))
                  altUps' m
            end
          else scanLocations mci matches altKey rest upstreams altUps merged
      end
  end.

(** Lines 852-886: the catch-all alternative backend. *)
Definition mergeCatchAll (mci : MCI) (servers : Servers) (upstreams : Upstreams)
  : option Upstreams :=
  match m_default_backend mci with
  | None => Some upstreams
  | Some svc =>
      let upsName := upstreamName (m_namespace mci) svc in
      match upstreams !! upsName with
      | None => Some upstreams
      | Some altUps =>
          match servers !! defServerName with
          | None => None
          | Some s =>
              match scanLocations mci (fun _ => Some true) upsName (s_locations s)
                      upstreams altUps false with
              | None => None
              | Some (ups', _, merged, altEqualsPri) =>
                  Some (if negb altEqualsPri && negb merged
                        then delete (b_name altUps) ups' else ups')
              end
          end
      end
  end.

(** [loc.Path == path.Path && *loc.PathType == *path.PathType]. *)
Definition pathMatches (path : HTTPPath) (loc : Location) : option bool :=
  if String.eqb (l_path loc) (p_path path) then
    match l_path_type loc, p_type path with
    | Some a, Some b => Some (PathType_eqb a b)
    | _, _ => None
    end
  else Some false.

(** Lines 894-944: one rule path.  A host without a server is skipped. *)
Definition mergePath (mci : MCI) (servers : Servers) (host : string)
  (acc : option Upstreams) (path : HTTPPath) : option Upstreams :=
  match acc with
  | None => None
  | Some upstreams =>
      match p_service path with
      | None => acc
      | Some svc =>
          let upsName := upstreamName (m_namespace mci) svc in
          match upstreams !! upsName with
          | None => acc
          | Some altUps =>
              match servers !! host with
              | None => acc
              | Some server =>
                  match scanLocations mci (pathMatches path) upsName
                          (s_locations server) upstreams altUps false with
                  | None => None
                  | Some (ups', _, merged, altEqualsPri) =>
                      Some (if negb altEqualsPri && negb merged
                            then delete (b_name altUps) ups' else ups')
                  end
              end
          end
      end
  end.

(** Lines 888-945: [rule.HTTP.Paths] dereferences [rule.HTTP]. *)
Definition mergeRule (mci : MCI) (servers : Servers) (acc : option Upstreams)
  (rule : Rule) : option Upstreams :=
  match acc with
  | None => None
  | Some _ =>
      match r_http rule with
      | None => None
      | Some paths => fold_left (mergePath mci servers (ruleHost rule)) paths acc
      end
  end.

(** [mergeAlternativeBackendsByMCI] (lines 848-946). *)
Definition mergeAlternativeBackendsByMCI (mci : MCI) (upstreams : Upstreams)
  (servers : Servers) : option Upstreams :=
  fold_left (mergeRule mci servers) (m_rules mci) (mergeCatchAll mci servers upstreams).

(** [nonCanaryMCIExists] (lines 840-842). *)
Definition nonCanaryMCIExists (mcis canaryMCIs : list MCI) : bool :=
  (0 <? Z.of_nat (length mcis) - Z.of_nat (length canaryMCIs))%Z.

Definition mergeCanaries (canaryMCIs : list MCI) (servers : Servers)
  (upstreams : Upstreams) : option Upstreams :=
  fold_left (fun acc mci =>
               match acc with
               | None => None
               | Some ups => mergeAlternativeBackendsByMCI mci ups servers
               end) canaryMCIs (Some upstreams).

(* ------------------------------------------------------------------ *)
(** ** Assembly: custom default backends, SSL passthrough, sorting *)

(** Modelled from the spec: [shouldCreateUpstreamForLocationDefaultBackend]
    (not in [src/]): the location is owned by this backend and "references a
    per-location custom default backend". *)
Definition shouldCreateUpstreamForLocationDefaultBackend (upstream : Backend)
  (location : Location) : bool :=
  String.eqb (b_name upstream) (l_backend location)
  && negb (isNone (l_default_backend location)).

(** Lines 303-344, one location: the location after the loop body, the
    backends appended to [aUpstreams], and whether it makes [upstream] an
    SSL-passthrough backend. *)
Definition customDefaultBackendLoc (st : Store) (upstream : Backend) (server : Server)
  (location : Location) : Location * list Backend * bool :=
  if negb (shouldCreateUpstreamForLocationDefaultBackend upstream location)
  then (location, [], false)
  else
    match l_default_backend location with
    | None => (location, [], false)
    | Some cdb =>
        match cdb_ports cdb with
        | [] => (location, [], false)
        | sp :: _ =>
            let endps := st_custom_endpoints st cdb sp in
            let '(loc1, nbs) :=
              match endps with
              | [] => (location, [])
              | _ =>
                  let name := "custom-default-backend-" ++ cdb_namespace cdb ++ "-"
                              ++ cdb_name cdb in
                  let nb := mkBackend name (b_port upstream) (b_noserver upstream)
                              (b_tsp upstream) (b_alternative_backends upstream) endps
                              (b_load_balancing upstream) (b_upstream_hash_by upstream)
                              (b_service upstream) (b_affinity_type upstream)
                              (b_ssl_passthrough upstream) in
                  let backend := match b_endpoints upstream with
                                 | [] => name
                                 | _ => l_backend location
                                 end in
                  (mkLocation (l_path location) (l_path_type location) backend
                     (l_is_def_backend location) (l_service location) (l_port location)
                     (l_mci location) (l_redirect location) (l_rewrite location)
                     (l_policy location) (l_default_backend location) name,
                   [nb])
              end in
            let isHTTPS := s_ssl_passthrough server
                           && String.eqb (l_path loc1) rootLocation
                           && negb (String.eqb (l_backend loc1) defUpstreamName) in
            (loc1, nbs, isHTTPS)
        end
    end.

Fixpoint customDefaultBackendLocs (st : Store) (upstream : Backend) (server : Server)
  (locs : list Location) : list Location * list Backend * bool :=
  match locs with
  | [] => ([], [], false)
  | loc :: rest =>
      let '(loc', nbs, h) := customDefaultBackendLoc st upstream server loc in
      let '(rest', nbs', h') := customDefaultBackendLocs st upstream server rest in
      (loc' :: rest', (nbs ++ nbs')%list, h || h')
  end.

(** One iteration of the loop over [upstreams] (lines 294-350).  Go ranges
    over its maps in an unspecified order; the model takes [map_to_list]'s. *)
Definition assembleUpstream (st : Store) (acc : list Backend * Servers)
  (upstream : Backend) : list Backend * Servers :=
  let '(aUpstreams, servers) := acc in
  if String.eqb (b_name upstream) defUpstreamName then ((aUpstreams ++ [upstream])%list, servers)
  else
    let '(servers', nbs, isHTTPSfrom) :=
      fold_left
        (fun (acc : Servers * list Backend * bool) (kv : string * Server) =>
           let '(servers, nbs, h) := acc in
           let '(locs, nbs', h') :=
             customDefaultBackendLocs st upstream (snd kv) (s_locations (snd kv)) in
           (<[fst kv := set_locations (snd kv) locs]> servers, (nbs ++ nbs')%list, h || h'))
        (map_to_list servers) (servers, [], false) in
    let upstream' := if isHTTPSfrom then set_ssl_passthrough upstream else upstream in
    ((aUpstreams ++ upstream' :: nbs)%list, servers').

(** [sort.SliceStable] with a [less] function, as a stable insertion
    sort. *)
Fixpoint insertStable {A} (less : A -> A -> bool) (x : A) (l : list A) : list A :=
  match l with
  | [] => [x]
  | y :: r => if less y x then y :: insertStable less x r else x :: l
  end.

Fixpoint sliceStable {A} (less : A -> A -> bool) (l : list A) : list A :=
  match l with
  | [] => []
  | x :: r => insertStable less x (sliceStable less r)
  end.

(** The three [less] functions of lines 354-370. *)
Definition pathDesc (a b : Location) : bool := String.ltb (l_path b) (l_path a).
Definition pathLenDesc (a b : Location) : bool :=
  Nat.ltb (String.length (l_path b)) (String.length (l_path a)).
Definition nameAsc (a b : Backend) : bool := String.ltb (b_name a) (b_name b).
Definition hostnameAsc (a b : Server) : bool := String.ltb (s_hostname a) (s_hostname b).

Definition sortLocations (locs : list Location) : list Location :=
  sliceStable pathLenDesc (sliceStable pathDesc locs).

(** Lines 352-372. *)
Definition sortBackendsAndServers (aUpstreams : list Backend) (servers : Servers)
  : list Backend * list Server :=
  let aServers := map (fun kv => set_locations (snd kv) (sortLocations (s_locations (snd kv))))
                    (map_to_list servers) in
  (sliceStable nameAsc aUpstreams, sliceStable hostnameAsc aServers).

(** [getBackendServersFromMCIs] (lines 94-373): the whole synthesis pass.
    [None] is a runtime panic. *)
Definition getBackendServersFromMCIs (st : Store) (mcis : list MCI)
  : option (list Backend * list Server) :=
  let defaultUpstream := getDefaultUpstream st in
  let upstreams := createUpstreamsFromMCIs st mcis defaultUpstream in
  let servers := fst (createServersFromMCIs st mcis upstreams defaultUpstream) in
  match locationsFromMCIs mcis (Some (upstreams, servers)) with
  | None => None
  | Some (upstreams1, servers1) =>
      let canaryMCIs := filter isCanary mcis in
      let merged := if nonCanaryMCIExists mcis canaryMCIs
                    then mergeCanaries canaryMCIs servers1 upstreams1
                    else Some upstreams1 in
      match merged with
      | None => None
      | Some upstreams2 =>
          let '(aUpstreams, servers2) :=
            fold_left (assembleUpstream st) (map snd (map_to_list upstreams2))
              ([], servers1) in
          Some (sortBackendsAndServers aUpstreams servers2)
      end
  end.

(* ------------------------------------------------------------------ *)
(** ** Admission: [checkOverlapWithMCI] *)

(** The outcome of [checkOverlapWithMCI]: nil, the overlap error naming
    host, path and the existing resource, or a runtime panic. *)
Inductive CheckResult :=
| CheckOK
| CheckConflict (host path namespace name : string)
| CheckPanic.

(** [mciForHostPath] (lines 1188-1210); a non-placeholder location without
    an owner would be a nil dereference. *)
Fixpoint mciForLocations (path : string) (locs : list Location) : option (list MCI) :=
  match locs with
  | [] => Some []
  | loc :: rest =>
      if negb (String.eqb (l_path loc) path) || l_is_def_backend loc
      then mciForLocations path rest
      else
        match l_mci loc, mciForLocations path rest with
        | Some m, Some ms => Some (m :: ms)
        | _, _ => None
        end
  end.

Fixpoint mciForHostPath (hostname path : string) (servers : list Server)
  : option (list MCI) :=
  match servers with
  | [] => Some []
  | server :: rest =>
      if negb (String.eqb hostname (s_hostname server)) then mciForHostPath hostname path rest
      else
        match mciForLocations path (s_locations server), mciForHostPath hostname path rest with
        | Some ms, Some ms' => Some (ms ++ ms')%list
        | _, _ => None
        end
  end.

(** [isCanaryEnabled] and [annotationErr == errors.ErrMissingAnnotations]. *)
Definition annotationTrue (a : BoolAnnotation) : bool :=
  match a with AnnValue true => true | _ => false end.

Definition annotationMissing (a : BoolAnnotation) : bool :=
  match a with AnnMissing => true | _ => false end.

(** Lines 1167-1178: the canary test against every existing resource. *)
Fixpoint canaryConflict (host path : string) (isCanaryEnabled : BoolAnnotation)
  (existingMCIs : list MCI) : CheckResult :=
  match existingMCIs with
  | [] => CheckOK
  | existing :: rest =>
      let isExisting := m_canary_annotation existing in
      if annotationTrue isCanaryEnabled && annotationTrue isExisting
      then CheckConflict host path (m_namespace existing) (m_name existing)
      else if annotationMissing isCanaryEnabled && annotationMissing isExisting
      then CheckConflict host path (m_namespace existing) (m_name existing)
      else canaryConflict host path isCanaryEnabled rest
  end.

Definition sameMCI (a b : MCI) : bool :=
  String.eqb (m_namespace a) (m_namespace b) && String.eqb (m_name a) (m_name b).

(** The path loop (lines 1136-1182): [None] goes on with the next path or
    rule, [Some r] is a [return]. *)
Fixpoint checkPaths (mci : MCI) (host : string) (paths : list HTTPPath)
  (servers : list Server) : option CheckResult :=
  match paths with
  | [] => None
  | path :: rest =>
      match p_service path with
      | None => checkPaths mci host rest servers
      | Some _ =>
          let p := if String.eqb (p_path path) "" then rootLocation else p_path path in
          match mciForHostPath host p servers with
          | None => Some CheckPanic
          | Some [] => checkPaths mci host rest servers
          | Some existingMCIs =>
              if existsb (fun existing => sameMCI existing mci) existingMCIs
              then Some CheckOK
              else Some (canaryConflict host p (m_canary_annotation mci) existingMCIs)
          end
      end
  end.

Fixpoint checkRules (mci : MCI) (rules : list Rule) (servers : list Server) : CheckResult :=
  match rules with
  | [] => CheckOK
  | rule :: rest =>
      match r_http rule with
      | None => checkRules mci rest servers
      | Some paths =>
          match checkPaths mci (ruleHost rule) paths servers with
          | Some r => r
          | None => checkRules mci rest servers
          end
      end
  end.

(** [checkOverlapWithMCI] (lines 1126-1186). *)
Definition checkOverlapWithMCI (mci : MCI) (servers : list Server) : CheckResult :=
  checkRules mci (m_rules mci) servers.

(* ------------------------------------------------------------------ *)
(** ** A concrete store and resources *)

Definition st0 : Store :=
  mkStore (fun n => "derived-" ++ n)
    (fun key port => ([key ++ ":" ++ port], false))
    (fun _ _ => None)
    (fun key => Some key)
    "round_robin"
    ["10.0.0.1:8080"]
    (fun _ => None)
    (mkSSLCert "default-fake-certificate" None)
    (fun _ _ => false)
    (fun _ _ => false)
    (fun _ _ => []).

Definition noCanary : CanaryConfig := mkCanary false 0 0 "" "" "" "".
Definition canary10 : CanaryConfig := mkCanary true 10 100 "X-Canary" "" "" "".

Definition annsWith (c : CanaryConfig) (lb : string) : Annotations :=
  mkAnnotations c lb "" false false "" "" "" emptyRedirect emptyRewrite "" None.

Definition svc1 : ServiceBackend := mkServiceBackend "s1" "80".
Definition svc2 : ServiceBackend := mkServiceBackend "s2" "80".

Definition exactPath (p : string) (svc : ServiceBackend) : HTTPPath :=
  mkHTTPPath p (Some PathTypeExact) (Some svc).
Definition prefixPath (p : string) (svc : ServiceBackend) : HTTPPath :=
  mkHTTPPath p (Some PathTypePrefix) (Some svc).

Definition plainMCI (name : string) (rules : list Rule) : MCI :=
  mkMCI "default" name AnnMissing (annsWith noCanary "") None rules [].
Definition canaryMCI (name : string) (rules : list Rule) : MCI :=
  mkMCI "default" name (AnnValue true) (annsWith canary10 "") None rules [].

Definition overlapFoo : MCI :=
  plainMCI "foo" [mkRule "a.com" (Some [exactPath "/b" svc1])].
Definition overlapBar : MCI :=
  plainMCI "bar" [mkRule "a.com" (Some [exactPath "/a" svc2; exactPath "/b" svc2])].
Definition dupMCI : MCI :=
  plainMCI "dup" [mkRule "a.com" (Some [exactPath "/x" svc1; prefixPath "/x" svc1;
                                        prefixPath "/x" svc1])].
Definition defBackendMCI (name lb : string) : MCI :=
  mkMCI "default" name AnnMissing (annsWith noCanary lb) (Some svc1) [] [].
Definition orphanCanary : MCI :=
  canaryMCI "corphan" [mkRule "b.com" (Some [prefixPath "/" svc2])].
Definition noHTTPCanary : MCI := canaryMCI "cnohttp" [mkRule "b.com" None].
Definition rulesAndBackendMCI : MCI :=
  mkMCI "default" "rb" AnnMissing (annsWith noCanary "") (Some svc1)
    [mkRule "a.com" (Some [exactPath "/b" svc2])] [].
Definition emptySecretMCI : MCI :=
  mkMCI "default" "tls" AnnMissing (annsWith noCanary "") None
    [mkRule "a.com" (Some [exactPath "/b" svc1])] [mkTLS ["a.com"] ""].

Fixpoint countLoc (p : string) (t : PathType) (locs : list Location) : nat :=
  match locs with
  | [] => 0
  | l :: r => (if String.eqb (l_path l) p && pathTypeDeepEqual (l_path_type l) (Some t)
               then 1 else 0) + countLoc p t r
  end.

Definition serverLocs (host : string) (o : option (list Backend * list Server)) :=
  match o with
  | None => None
  | Some (_, srvs) => option_map s_locations (find (fun s => String.eqb (s_hostname s) host) srvs)
  end.

Definition listedPrimary : Backend :=
  mkBackend "default-s1-80" "80" false emptyTSP ["default-s2-80"] [] "" "" None "" false.

Definition tlsStore : Store :=
  mkStore (st_derived_name st0) (st_service_endpoints st0) (st_cluster_endpoint st0)
    (st_get_service st0) (st_load_balancing st0) (st_default_endpoints st0)
    (fun key => if String.eqb key "default/cert1"
                then Some (mkSSLCert "cert1" (Some (mkX509 ["b.com"] "b.com")))
                else None)
    (st_default_ssl_cert st0)
    (fun x h => existsb (String.eqb h) (x509_dns_names x))
    (fun x h => String.eqb h (x509_common_name x))
    (st_custom_endpoints st0).

Definition tlsMCI : MCI :=
  mkMCI "default" "tls" AnnMissing (annsWith noCanary "") None
    [mkRule "a.com" (Some [exactPath "/b" svc1])] [mkTLS ["a.com"] "cert1"].

Definition tlsServer : Server := mkServer "a.com" [] None false "" false.

Definition canaryBoth : MCI :=
  mkMCI "default" "cboth" (AnnValue true) (annsWith canary10 "") (Some svc1)
    [mkRule "a.com" (Some [prefixPath "/" svc2])] [].

(** The order [sort.SliceStable] establishes: no element is [less] than
    the one before it. *)
Definition notLessBefore {A} (less : A -> A -> bool) (a b : A) : Prop := less b a = false.

(** Longest path first; among paths of equal length, the lexicographically
    larger first. *)
Definition locationOrder (a b : Location) : Prop :=
  (String.length (l_path b) < String.length (l_path a))%nat \/
  (String.length (l_path a) = String.length (l_path b) /\
   String.leb (l_path b) (l_path a) = true).

(* ------------------------------------------------------------------ *)
(** ** Removed resources: [getRemovedMCIs] *)

(** [sets.String.Insert] after the [Has] test: a set as the list of its
    elements in insertion order. *)
Definition insertKey (set : list string) (k : string) : list string :=
  if existsb (String.eqb k) set then set else (set ++ [k])%list.

(** The loop of lines 988-999 over one server: the key of every location
    with an owner.  [k8s.MetaNamespaceKey] is not in [src/]; it is the
    parameter [metaNamespaceKey]. *)
Definition serverMCIKeys (metaNamespaceKey : MCI -> string) (acc : list string)
  (server : Server) : list string :=
  fold_left (fun acc location =>
               match l_mci location with
               | None => acc
               | Some mci => insertKey acc (metaNamespaceKey mci)
               end) (s_locations server) acc.

Definition mciKeySet (metaNamespaceKey : MCI -> string) (servers : list Server)
  : list string :=
  fold_left (serverMCIKeys metaNamespaceKey) servers [].

(** [getRemovedMCIs] (lines 984-1015) on the [Servers] of the running and
    the new configuration.  [Difference] keeps the old keys absent from the
    new set; [List] returns them sorted with [sort.Strings]. *)
Definition getRemovedMCIs (metaNamespaceKey : MCI -> string)
  (rucfgServers newcfgServers : list Server) : list string :=
  let oldMCIs := mciKeySet metaNamespaceKey rucfgServers in
  let newMCIs := mciKeySet metaNamespaceKey newcfgServers in
  sliceStable String.ltb
    (List.filter (fun k => negb (existsb (String.eqb k) newMCIs)) oldMCIs).

(** The keys of the owners of the locations of [servers]. *)
Definition ownsLocation (key : MCI -> string) (servers : list Server) (k : string) : Prop :=
  exists s l m, In s servers /\ In l (s_locations s) /\ l_mci l = Some m /\ key m = k.

(** Fixtures for the admission check: a third plain resource on
    [a.com/b], one on the same path whose canary annotation reads "false",
    and the servers synthesized with [foo]. *)
Definition overlapBaz : MCI :=
  plainMCI "baz" [mkRule "a.com" (Some [exactPath "/b" svc2])].
Definition explicitNonCanary : MCI :=
  mkMCI "default" "qux" (AnnValue false) (annsWith noCanary "") None
    [mkRule "a.com" (Some [exactPath "/b" svc2])] [].
Definition serversOf (o : option (list Backend * list Server)) : list Server :=
  match o with Some (_, srvs) => srvs | None => [] end.

(** A TLS section whose host list does not name [b.com] but whose
    certificate validates it. *)
Definition sanMCI : MCI :=
  mkMCI "default" "san" AnnMissing (annsWith noCanary "") None
    [mkRule "b.com" (Some [exactPath "/b" svc1])] [mkTLS ["a.com"] "cert1"].

(** A location that [mciForHostPath] inspects: on a server of the host,
    at the path, not a default-backend placeholder. *)
Definition inspectedLocation (host path : string) (servers : list Server)
  (l : Location) : Prop :=
  exists s, In s servers /\ s_hostname s = host /\ In l (s_locations s) /\
            l_path l = path /\ l_is_def_backend l = false.

(** Servers are keyed by their host name. *)
Definition keyedServers (servers : Servers) : Prop :=
  map_Forall (fun k s => s_hostname s = k) servers.

(** The servers carried by the location loop's accumulator, when there is
    one. *)
Definition accServersKeyed (acc : option (Upstreams * Servers)) : Prop :=
  match acc with Some (_, servers) => keyedServers servers | None => True end.

Definition hostBMCI : MCI :=
  plainMCI "hb" [mkRule "b.com" (Some [prefixPath "/" svc2])].

(** Two maps with the same keys. *)
Definition sameKeys {V} (m m' : gmap string V) : Prop :=
  forall k, is_Some (m' !! k) <-> is_Some (m !! k).

(** What the second server pass may change on a server: neither its host
    name, its locations nor its passthrough flag; a certificate or SSL
    ciphers already set stay. *)
Definition pass2Frame (s s' : Server) : Prop :=
  s_hostname s' = s_hostname s /\ s_locations s' = s_locations s /\
  s_ssl_passthrough s' = s_ssl_passthrough s /\
  (forall c, s_ssl_cert s = Some c -> s_ssl_cert s' = Some c) /\
  (s_ssl_ciphers s <> "" -> s_ssl_ciphers s' = s_ssl_ciphers s).

(** The upstreams and servers the location loop of
    [getBackendServersFromMCIs] starts from. *)
Definition loopUpstreams (st : Store) (mcis : list MCI) : Upstreams :=
  createUpstreamsFromMCIs st mcis (getDefaultUpstream st).
Definition loopServers (st : Store) (mcis : list MCI) : Servers :=
  fst (createServersFromMCIs st mcis (loopUpstreams st mcis) (getDefaultUpstream st)).

(** A resource that routes the whole catch-all host, and one with a TLS
    section for it. *)
Definition catchRootMCI : MCI :=
  plainMCI "root" [mkRule "" (Some [prefixPath "/" svc2])].
Definition catchTLSMCI : MCI :=
  mkMCI "default" "ctls" AnnMissing (annsWith noCanary "") None
    [mkRule "" (Some [prefixPath "/" svc2])] [mkTLS ["_"] "cert1"].

(** Invariants of the location loop's accumulator. *)
Definition accSameKeys (u0 : Upstreams) (s0 : Servers) (acc : option (Upstreams * Servers))
  : Prop :=
  match acc with Some (u, s) => sameKeys u0 u /\ sameKeys s0 s | None => True end.

Definition accKeepsLocation (k : string) (l : Location) (acc : option (Upstreams * Servers))
  : Prop :=
  match acc with
  | Some (_, s) => exists srv, s !! k = Some srv /\ In l (s_locations srv)
  | None => True
  end.

(** What the canary merger may change on a backend: it keeps every field
    but the affinity type, and only appends to the alternative backends. *)
Definition mergeFrame (b b' : Backend) : Prop :=
  b_name b' = b_name b /\ b_port b' = b_port b /\ b_noserver b' = b_noserver b /\
  b_tsp b' = b_tsp b /\ b_endpoints b' = b_endpoints b /\
  b_load_balancing b' = b_load_balancing b /\ b_upstream_hash_by b' = b_upstream_hash_by b /\
  b_service b' = b_service b /\ b_ssl_passthrough b' = b_ssl_passthrough b /\
  exists extra, b_alternative_backends b' = (b_alternative_backends b ++ extra)%list.

(** Every entry of [u] is an entry of [u0] under the same key, changed only
    as [mergeFrame] allows. *)
Definition upstreamsFrame (u0 u : Upstreams) : Prop :=
  forall k b', u !! k = Some b' -> exists b, u0 !! k = Some b /\ mergeFrame b b'.

Definition primaryRoot : MCI :=
  plainMCI "pr" [mkRule "a.com" (Some [prefixPath "/" svc1])].
Definition canaryRoot : MCI :=
  canaryMCI "cr" [mkRule "a.com" (Some [prefixPath "/" svc2])].

(* ------------------------------------------------------------------ *)
(** ** SSL passthrough: the server loop of [getConfigurationFromMCI] *)

(** [ingress.SSLPassthroughBackend]. *)
Record SSLPassthroughBackend := mkSSLPassthroughBackend {
  spb_backend : string;
  spb_hostname : string;
  spb_service : option string;
  spb_port : string
}.

(** Lines 33-75: for each server, [server.Locations] is replaced by
    [updateServerLocations(server.Locations)] (not in [src/]; a parameter
    here), and a passthrough server contributes its first root location,
    the loop [break]ing there.  The host set and aliases are not modelled. *)
Definition passthroughServer (updateServerLocations : list Location -> list Location)
  (server : Server) : Server * list SSLPassthroughBackend :=
  let server' := set_locations server (updateServerLocations (s_locations server)) in
  if negb (s_ssl_passthrough server') then (server', [])
  else
    match find (fun loc => String.eqb (l_path loc) rootLocation) (s_locations server') with
    | None => (server', [])
    | Some loc =>
        (server', [mkSSLPassthroughBackend (l_backend loc) (s_hostname server')
                     (l_service loc) (l_port loc)])
    end.

Fixpoint getConfigurationPassthrough (updateServerLocations : list Location -> list Location)
  (servers : list Server) : list Server * list SSLPassthroughBackend :=
  match servers with
  | [] => ([], [])
  | server :: rest =>
      let '(server', pass) := passthroughServer updateServerLocations server in
      let '(rest', passRest) := getConfigurationPassthrough updateServerLocations rest in
      (server' :: rest', (pass ++ passRest)%list)
  end.

(** A resource whose server passes TLS through. *)
Definition passthroughMCI : MCI :=
  mkMCI "default" "pt" AnnMissing
    (mkAnnotations noCanary "" "" false true "" "" "" emptyRedirect emptyRewrite "" None)
    None [mkRule "p.com" (Some [prefixPath "/" svc1])] [].

(* ================================================================== *)
(** * Properties *)

(** Case analysis on every test of a step. *)
Ltac tls_cases :=
  repeat match goal with |- context [match ?x with _ => _ end] => destruct x end;
  reflexivity.

(** ** Stable insertion sort *)

Section SliceStable.
Context {A : Type} (less : A -> A -> bool).

Lemma insertStable_perm (x : A) (l : list A) :
  Permutation (insertStable less x l) (x :: l).
Proof.
  induction l as [|y r IH]; simpl; [reflexivity|].
  destruct (less y x).
  - rewrite IH. apply perm_swap.
  - reflexivity.
Qed.

Lemma sliceStable_perm (l : list A) : Permutation (sliceStable less l) l.
Proof.
  induction l as [|x r IH]; simpl; [reflexivity|].
  rewrite insertStable_perm. now apply perm_skip.
Qed.

Lemma insertStable_hdrel (R : A -> A -> Prop) (x y : A) (l : list A) :
  HdRel R y l -> R y x -> HdRel R y (insertStable less x l).
Proof.
  intros Hhd Hyx. destruct l as [|z r]; simpl.
  - now constructor.
  - destruct (less z x).
    + inversion Hhd; subst. now constructor.
    + now constructor.
Qed.

Hypothesis less_asym : forall a b, less a b = true -> less b a = false.

Lemma insertStable_sorted (x : A) (l : list A) :
  Sorted (notLessBefore less) l -> Sorted (notLessBefore less) (insertStable less x l).
Proof.
  induction l as [|y r IH]; intros Hs; simpl.
  - repeat constructor.
  - inversion Hs as [|? ? Hr Hhd]; subst.
    destruct (less y x) eqn:Hyx.
    + constructor; [now apply IH|].
      apply insertStable_hdrel; [assumption|].
      unfold notLessBefore. now apply less_asym.
    + constructor; [assumption|]. constructor. exact Hyx.
Qed.

Lemma sliceStable_sorted (l : list A) : Sorted (notLessBefore less) (sliceStable less l).
Proof.
  induction l as [|x r IH]; simpl; [constructor|].
  now apply insertStable_sorted.
Qed.
End SliceStable.

(** ** Lexicographic order on strings, as Go compares them *)

Lemma string_compare_lt_trans (a b c : string) :
  String.compare a b = Lt -> String.compare b c = Lt -> String.compare a c = Lt.
Proof.
  revert b c. induction a as [|x a IH]; intros [|y b] [|z c];
    cbn [String.compare]; try congruence.
  unfold Ascii.compare.
  destruct (N.compare (N_of_ascii x) (N_of_ascii y)) eqn:Hxy,
           (N.compare (N_of_ascii y) (N_of_ascii z)) eqn:Hyz; try congruence.
  - apply N.compare_eq_iff in Hxy, Hyz.
    rewrite Hxy, Hyz, N.compare_refl. apply IH.
  - apply N.compare_eq_iff in Hxy. intros _ _. rewrite Hxy, Hyz. reflexivity.
  - apply N.compare_eq_iff in Hyz. intros _ _. rewrite <- Hyz, Hxy. reflexivity.
  - apply N.compare_lt_iff in Hxy, Hyz. intros _ _.
    replace (N.compare (N_of_ascii x) (N_of_ascii z)) with Lt; [reflexivity|].
    symmetry. apply N.compare_lt_iff. eapply N.lt_trans; eassumption.
Qed.

Lemma string_ltb_false_leb (a b : string) :
  String.ltb a b = false <-> String.leb b a = true.
Proof.
  unfold String.ltb, String.leb. rewrite (String.compare_antisym b a).
  destruct (String.compare a b); simpl; split; congruence.
Qed.

Lemma string_ltb_asym (a b : string) :
  String.ltb a b = true -> String.ltb b a = false.
Proof.
  unfold String.ltb. rewrite (String.compare_antisym b a).
  destruct (String.compare a b); simpl; congruence.
Qed.

Lemma string_ltb_false_trans (a b c : string) :
  String.ltb a b = false -> String.ltb b c = false -> String.ltb a c = false.
Proof.
  unfold String.ltb. intros Hab Hbc.
  destruct (String.compare a c) eqn:Hac; try reflexivity.
  exfalso.
  destruct (String.compare a b) eqn:Hab'; try discriminate.
  - apply String.compare_eq_iff in Hab'. subst. rewrite Hac in Hbc. discriminate.
  - assert (Hba : String.compare b a = Lt)
      by (rewrite String.compare_antisym, Hab'; reflexivity).
    rewrite (string_compare_lt_trans b a c Hba Hac) in Hbc. discriminate.
Qed.

(** ** Location order *)

Lemma insert_pathLenDesc_sorted (x : Location) (l : list Location) :
  Sorted locationOrder l ->
  (forall y, In y l -> String.ltb (l_path x) (l_path y) = false) ->
  Sorted locationOrder (insertStable pathLenDesc x l).
Proof.
  induction l as [|y r IH]; intros Hs Hx; simpl.
  - repeat constructor.
  - inversion Hs as [|? ? Hr Hhd]; subst.
    unfold pathLenDesc at 1. destruct (Nat.ltb _ _) eqn:Hlen.
    + apply Nat.ltb_lt in Hlen.
      constructor.
      * apply IH; [assumption|]. intros z Hz. apply Hx. now right.
      * apply insertStable_hdrel; [assumption|]. now left.
    + apply Nat.ltb_ge in Hlen.
      constructor; [assumption|]. constructor.
      unfold locationOrder.
      destruct (Nat.eq_dec (String.length (l_path x)) (String.length (l_path y)))
        as [Heq|Hne].
      * right. split; [assumption|].
        apply string_ltb_false_leb. apply Hx. now left.
      * left. lia.
Qed.

Lemma sliceStable_pathLenDesc_sorted (l : list Location) :
  StronglySorted (fun a b => String.ltb (l_path a) (l_path b) = false) l ->
  Sorted locationOrder (sliceStable pathLenDesc l).
Proof.
  induction l as [|x r IH]; intros Hs; simpl; [constructor|].
  apply StronglySorted_inv in Hs as [Hr Hx].
  apply insert_pathLenDesc_sorted; [now apply IH|].
  intros y Hy. apply (Permutation_in _ (sliceStable_perm pathLenDesc r)) in Hy.
  rewrite List.Forall_forall in Hx. now apply Hx.
Qed.

Lemma sortLocations_sorted (locs : list Location) :
  Sorted locationOrder (sortLocations locs).
Proof.
  unfold sortLocations. apply sliceStable_pathLenDesc_sorted.
  apply Sorted_StronglySorted.
  - intros a b c. apply string_ltb_false_trans.
  - apply (sliceStable_sorted pathDesc). unfold pathDesc.
    intros a b. apply string_ltb_asym.
Qed.

Lemma Sorted_weaken {A} (R R' : A -> A -> Prop) (l : list A) :
  (forall a b, R a b -> R' a b) -> Sorted R l -> Sorted R' l.
Proof.
  intros HRR' Hs. induction Hs as [|x l Hs IH Hhd]; constructor; [assumption|].
  destruct Hhd; constructor. now apply HRR'.
Qed.

(** C7: in the assembled output the backends are in ascending name order,
    the servers in ascending hostname order, and the locations of every
    server longest-path first, equal lengths in descending lexicographic
    order.  The output is a function of the input, so two runs on the same
    input give the same order. *)
Theorem getBackendServersFromMCIs_ordering (st : Store) (mcis : list MCI)
  (backends : list Backend) (servers : list Server) :
  getBackendServersFromMCIs st mcis = Some (backends, servers) ->
  Sorted (fun a b => String.leb (b_name a) (b_name b) = true) backends /\
  Sorted (fun a b => String.leb (s_hostname a) (s_hostname b) = true) servers /\
  Forall (fun s => Sorted locationOrder (s_locations s)) servers.
Proof.
  unfold getBackendServersFromMCIs.
  destruct (locationsFromMCIs _ _) as [[upstreams1 servers1]|]; [|discriminate].
  destruct (if nonCanaryMCIExists _ _ then _ else _) as [upstreams2|]; [|discriminate].
  destruct (fold_left _ _ _) as [aUpstreams servers2].
  unfold sortBackendsAndServers. intros H. injection H as <- <-.
  split; [|split].
  - eapply Sorted_weaken; [|apply (sliceStable_sorted nameAsc)].
    + intros a b Hab. unfold notLessBefore, nameAsc in Hab.
      now apply string_ltb_false_leb.
    + intros a b. apply string_ltb_asym.
  - eapply Sorted_weaken; [|apply (sliceStable_sorted hostnameAsc)].
    + intros a b Hab. unfold notLessBefore, hostnameAsc in Hab.
      now apply string_ltb_false_leb.
    + intros a b. apply string_ltb_asym.
  - apply List.Forall_forall. intros s Hs.
    apply (Permutation_in _ (sliceStable_perm hostnameAsc _)) in Hs.
    apply in_map_iff in Hs as [kv [<- _]].
    apply sortLocations_sorted.
Qed.

Lemma getBackendServersFromMCIs_ordering_witness :
  exists backends servers,
    getBackendServersFromMCIs st0 [overlapFoo; overlapBar] = Some (backends, servers) /\
    Sorted (fun a b => String.leb (b_name a) (b_name b) = true) backends /\
    Sorted (fun a b => String.leb (s_hostname a) (s_hostname b) = true) servers /\
    Forall (fun s => Sorted locationOrder (s_locations s)) servers.
Proof.
  destruct (getBackendServersFromMCIs st0 [overlapFoo; overlapBar])
    as [[backends servers]|] eqn:H; [|vm_compute in H; discriminate].
  exists backends, servers. split; [reflexivity|].
  exact (getBackendServersFromMCIs_ordering st0 [overlapFoo; overlapBar] backends servers H).
Defined.

(** ** Helpers for the server builder *)

(** The rule loop of the first pass only adds servers for new hosts. *)
Lemma pass1_rules_keep (un : string) (mci : MCI) (rules : list Rule)
  (servers : Servers) (k : string) (v : Server) :
  servers !! k = Some v ->
  fold_left
    (fun servers rule =>
       let host := ruleHost rule in
       match servers !! host with
       | Some _ => servers
       | None =>
           <[host := mkServer host [placeholderLocation un mci] None
                       (a_ssl_passthrough (m_anns mci)) (a_ssl_ciphers (m_anns mci))
                       false]> servers
       end) rules servers !! k = Some v.
Proof.
  revert servers. induction rules as [|r rules IH]; intros servers Hk; simpl; [exact Hk|].
  apply IH. destruct (servers !! ruleHost r) eqn:Hh; [exact Hk|].
  destruct (decide (ruleHost r = k)) as [<-|Hne].
  - congruence.
  - rewrite lookup_insert_ne by congruence. exact Hk.
Qed.

(** C5 (as the code has it): a non-canary resource whose default backend
    resolves to an existing Backend rebinds the catch-all root location to
    that backend, its service and the resource, whether or not it declares
    rules; redirect and rewrite are kept.  Only when the root is still the
    default-backend placeholder and the resource has no rule are the
    annotations applied (policy and custom default backend) and the
    placeholder flag cleared; otherwise these fields are kept. *)
Theorem createServersPass1_catchAll (upstreams : Upstreams) (du : Backend)
  (servers : Servers) (mci : MCI) (svc : ServiceBackend) (bu : Backend) (s : Server)
  (defLoc : Location) (rest : list Location) :
  isCanary mci = false ->
  m_default_backend mci = Some svc ->
  upstreams !! upstreamName (m_namespace mci) svc = Some bu ->
  servers !! defServerName = Some s ->
  s_locations s = defLoc :: rest ->
  exists loc,
    createServersPass1 upstreams du servers mci !! defServerName
      = Some (set_locations s (loc :: rest)) /\
    l_path loc = l_path defLoc /\ l_path_type loc = l_path_type defLoc /\
    l_backend loc = b_name bu /\ l_service loc = b_service bu /\
    l_mci loc = Some mci /\ l_port loc = l_port defLoc /\
    l_redirect loc = l_redirect defLoc /\ l_rewrite loc = l_rewrite defLoc /\
    (if l_is_def_backend defLoc && Nat.eqb (length (m_rules mci)) 0
     then l_is_def_backend loc = false /\ l_policy loc = a_policy (m_anns mci) /\
          l_default_backend loc = a_default_backend (m_anns mci)
     else l_is_def_backend loc = l_is_def_backend defLoc /\
          l_policy loc = l_policy defLoc /\
          l_default_backend loc = l_default_backend defLoc).
Proof.
  intros Hcan Hdb Hup Hs Hloc.
  unfold createServersPass1. rewrite Hcan, Hdb, Hup. cbn iota beta zeta.
  eexists. split.
  - apply pass1_rules_keep. unfold bindCatchAll. rewrite Hs, Hloc.
    apply lookup_insert_eq.
  - cbn. destruct (l_is_def_backend defLoc && Nat.eqb (length (m_rules mci)) 0);
      cbn; repeat split.
Qed.

Lemma createServersPass1_catchAll_witness :
  let ups := createUpstreamsFromMCIs st0 [rulesAndBackendMCI] (getDefaultUpstream st0) in
  let bu := mkBackend "default-s1-80" "" false emptyTSP [] ["default/derived-s1:80"]
              "round_robin" "" (Some "default/derived-s1") "" false in
  let s := mkServer defServerName [defaultRootLocation (getDefaultUpstream st0)]
             (Some (st_default_ssl_cert st0)) false "" false in
  let defLoc := defaultRootLocation (getDefaultUpstream st0) in
  (isCanary rulesAndBackendMCI = false /\
   m_default_backend rulesAndBackendMCI = Some svc1 /\
   ups !! upstreamName (m_namespace rulesAndBackendMCI) svc1 = Some bu /\
   initialServers st0 (getDefaultUpstream st0) !! defServerName = Some s /\
   s_locations s = defLoc :: []) /\
  exists loc,
    createServersPass1 ups (getDefaultUpstream st0)
      (initialServers st0 (getDefaultUpstream st0)) rulesAndBackendMCI !! defServerName
      = Some (set_locations s (loc :: [])) /\
    l_path loc = l_path defLoc /\ l_path_type loc = l_path_type defLoc /\
    l_backend loc = b_name bu /\ l_service loc = b_service bu /\
    l_mci loc = Some rulesAndBackendMCI /\ l_port loc = l_port defLoc /\
    l_redirect loc = l_redirect defLoc /\ l_rewrite loc = l_rewrite defLoc /\
    (if l_is_def_backend defLoc && Nat.eqb (length (m_rules rulesAndBackendMCI)) 0
     then l_is_def_backend loc = false /\
          l_policy loc = a_policy (m_anns rulesAndBackendMCI) /\
          l_default_backend loc = a_default_backend (m_anns rulesAndBackendMCI)
     else l_is_def_backend loc = l_is_def_backend defLoc /\
          l_policy loc = l_policy defLoc /\
          l_default_backend loc = l_default_backend defLoc).
Proof.
  intros ups bu s defLoc.
  assert (H : isCanary rulesAndBackendMCI = false /\
   m_default_backend rulesAndBackendMCI = Some svc1 /\
   ups !! upstreamName (m_namespace rulesAndBackendMCI) svc1 = Some bu /\
   initialServers st0 (getDefaultUpstream st0) !! defServerName = Some s /\
   s_locations s = defLoc :: []) by (vm_compute; repeat split).
  split; [exact H|].
  destruct H as (H1 & H2 & H3 & H4 & H5).
  exact (createServersPass1_catchAll ups (getDefaultUpstream st0)
           (initialServers st0 (getDefaultUpstream st0)) rulesAndBackendMCI svc1 bu s
           defLoc [] H1 H2 H3 H4 H5).
Defined.

(** C5 counterexample: a non-canary resource with a default backend and a
    rule still moves the catch-all root location off the default upstream. *)
Lemma catchAll_rebound_with_rules :
  option_map (map l_backend)
    (serverLocs "_" (getBackendServersFromMCIs st0 [rulesAndBackendMCI]))
    = Some ["default-s1-80"] /\
  option_map (map l_backend) (serverLocs "_" (getBackendServersFromMCIs st0 []))
    = Some [defUpstreamName].
Proof. vm_compute. split; reflexivity. Qed.

(** ** Canary merge of one pair of backends *)

(** C8: [mergeAlternativeBackendByMCI] is only called once
    [canMergeBackend] has accepted the primary (lines 873 and 932, the
    scan of [scanLocations]).  Under that guard, a primary that already
    lists the alternative's name is left as it is and the merge reports
    success.  For every primary and alternative, merging the result a
    second time leaves the alternative list and the success flag as the
    first merge made them. *)
Theorem mergeAlternativeBackendByMCI_idempotent (mci : MCI) (pri alt : Backend) :
  (canMergeBackend pri alt = true ->
   In (b_name alt) (b_alternative_backends pri) ->
   mergeAlternativeBackendByMCI mci pri alt = (true, pri, alt)) /\
  (forall ok1 pri1 alt1 ok2 pri2 alt2,
   mergeAlternativeBackendByMCI mci pri alt = (ok1, pri1, alt1) ->
   mergeAlternativeBackendByMCI mci pri1 alt1 = (ok2, pri2, alt2) ->
   b_alternative_backends pri2 = b_alternative_backends pri1 /\ ok2 = ok1).
Proof.
  split.
  - intros Hcan Hin. unfold canMergeBackend in Hcan. apply negb_true_iff in Hcan.
    unfold mergeAlternativeBackendByMCI. rewrite Hcan.
    replace (existsb (String.eqb (b_name alt)) (b_alternative_backends pri)) with true;
      [reflexivity|].
    symmetry. apply existsb_exists. exists (b_name alt).
    split; [exact Hin|apply String.eqb_refl].
  - intros ok1 pri1 alt1 ok2 pri2 alt2 H1 H2.
    unfold mergeAlternativeBackendByMCI in H1.
    destruct (b_noserver pri) eqn:Hns.
    + injection H1 as <- <- <-.
      unfold mergeAlternativeBackendByMCI in H2. rewrite Hns in H2.
      injection H2 as <- <- <-. split; reflexivity.
    + destruct (existsb (String.eqb (b_name alt)) (b_alternative_backends pri)) eqn:Hex.
      * injection H1 as <- <- <-.
        unfold mergeAlternativeBackendByMCI in H2. rewrite Hns, Hex in H2.
        injection H2 as <- <- <-. split; reflexivity.
      * injection H1 as <- <- <-.
        assert (Hname : b_name (if negb (String.eqb (a_canary_behavior (m_anns mci)) "legacy")
                                then set_affinity_type alt (b_affinity_type pri) else alt)
                        = b_name alt)
          by (destruct (negb _); reflexivity).
        unfold mergeAlternativeBackendByMCI in H2. cbn [b_noserver set_alternative_backends] in H2.
        rewrite Hns, Hname in H2. cbn [b_alternative_backends set_alternative_backends] in H2.
        replace (existsb (String.eqb (b_name alt))
                   (b_alternative_backends pri ++ [b_name alt])%list) with true in H2.
        -- injection H2 as <- <- <-. split; reflexivity.
        -- symmetry. apply existsb_exists. exists (b_name alt).
           split; [apply in_or_app; right; now left|apply String.eqb_refl].
Qed.

Lemma mergeAlternativeBackendByMCI_idempotent_witness :
  canMergeBackend listedPrimary (newUpstream "default-s2-80") = true /\
  In (b_name (newUpstream "default-s2-80")) (b_alternative_backends listedPrimary) /\
  mergeAlternativeBackendByMCI (canaryMCI "c" []) listedPrimary (newUpstream "default-s2-80")
    = (true, listedPrimary, newUpstream "default-s2-80").
Proof.
  assert (H1 : canMergeBackend listedPrimary (newUpstream "default-s2-80") = true)
    by reflexivity.
  assert (H2 : In (b_name (newUpstream "default-s2-80")) (b_alternative_backends listedPrimary))
    by (simpl; left; reflexivity).
  split; [exact H1|]. split; [exact H2|].
  exact (proj1 (mergeAlternativeBackendByMCI_idempotent (canaryMCI "c" []) listedPrimary
                  (newUpstream "default-s2-80")) H1 H2).
Defined.

(** ** Certificate selection *)

(** C9 (as the code has it): for a host of a non-canary resource with a
    TLS section and no certificate yet, every failure of certificate
    resolution substitutes the default certificate: an empty secret name,
    a secret that fails to load, a secret without certificate, or a
    certificate that validates the host neither by SAN nor by CN.  The
    last three record a warning; for an empty secret name the step records
    no warning, only one info-level entry after the log of the secret-name
    search ([klog.V(3).Infof]).  A certificate that
    validates is used.  The step is a total function and keeps the rest of
    the server. *)
Theorem serverTLSStep_fallback (st : Store) (mci : MCI) (host : string) (s : Server) :
  s_ssl_cert s = None ->
  m_tls mci <> [] ->
  let name := fst (extractTLSSecretNameFromMCI st host mci) in
  let key := m_namespace mci ++ "/" ++ name in
  let s' := fst (serverTLSStep st mci host s) in
  let lg := snd (serverTLSStep st mci host s) in
  let dflt := Some (st_default_ssl_cert st) in
  s_hostname s' = s_hostname s /\ s_locations s' = s_locations s /\
  (name = "" -> s_ssl_cert s' = dflt /\
   exists msg, lg = app (snd (extractTLSSecretNameFromMCI st host mci)) [(LInfo, msg)]) /\
  (name <> "" -> st_get_local_ssl_cert st key = None ->
   s_ssl_cert s' = dflt /\ existsb is_warning lg = true) /\
  (forall cert, name <> "" -> st_get_local_ssl_cert st key = Some cert ->
   cert_certificate cert = None ->
   s_ssl_cert s' = dflt /\ existsb is_warning lg = true) /\
  (forall cert x, name <> "" -> st_get_local_ssl_cert st key = Some cert ->
   cert_certificate cert = Some x ->
   st_verify_hostname st x host = false -> st_verify_common_name st x host = false ->
   s_ssl_cert s' = dflt /\ existsb is_warning lg = true) /\
  (forall cert x, name <> "" -> st_get_local_ssl_cert st key = Some cert ->
   cert_certificate cert = Some x ->
   st_verify_hostname st x host || st_verify_common_name st x host = true ->
   s_ssl_cert s' = Some cert).
Proof.
  intros Hnone Htls name key s' lg dflt.
  subst s' lg dflt name key.
  unfold serverTLSStep. rewrite Hnone.
  destruct (m_tls mci) as [|t ts] eqn:Ht; [congruence|].
  destruct (extractTLSSecretNameFromMCI st host mci) as [nm lg0]. cbn [fst snd].
  assert (Hw : forall l rest, existsb is_warning (app lg0 ((LWarning, l) :: rest)) = true).
  { intros l rest. rewrite existsb_app. apply orb_true_intro. right. reflexivity. }
  destruct (String.eqb nm "") eqn:Hnm.
  - apply String.eqb_eq in Hnm. subst nm.
    split; [reflexivity|]. split; [reflexivity|].
    split; [intros; split; [reflexivity|eexists; reflexivity]|].
    repeat split; intros; congruence.
  - split; [tls_cases|]. split; [tls_cases|].
    split; [intros Habs; subst; rewrite String.eqb_refl in Hnm; discriminate|].
    split; [|split; [|split]].
    + intros _ Hget. rewrite Hget. split; [reflexivity|apply Hw].
    + intros cert _ Hget Hc. rewrite Hget, Hc. split; [reflexivity|apply Hw].
    + intros cert x _ Hget Hc Hv Hcn. rewrite Hget, Hc, Hv, Hcn.
      split; [reflexivity|apply Hw].
    + intros cert x _ Hget Hc Hor. rewrite Hget, Hc.
      destruct (st_verify_hostname st x host); [reflexivity|].
      cbn in Hor. rewrite Hor. reflexivity.
Qed.

Lemma serverTLSStep_fallback_witness :
  (s_ssl_cert tlsServer = None /\ m_tls tlsMCI <> []) /\
  (forall cert x,
   fst (extractTLSSecretNameFromMCI tlsStore "a.com" tlsMCI) <> "" ->
   st_get_local_ssl_cert tlsStore
     (m_namespace tlsMCI ++ "/" ++ fst (extractTLSSecretNameFromMCI tlsStore "a.com" tlsMCI))
     = Some cert ->
   cert_certificate cert = Some x ->
   st_verify_hostname tlsStore x "a.com" = false ->
   st_verify_common_name tlsStore x "a.com" = false ->
   s_ssl_cert (fst (serverTLSStep tlsStore tlsMCI "a.com" tlsServer))
     = Some (st_default_ssl_cert tlsStore) /\
   existsb is_warning (snd (serverTLSStep tlsStore tlsMCI "a.com" tlsServer)) = true).
Proof.
  assert (H1 : s_ssl_cert tlsServer = None) by reflexivity.
  assert (H2 : m_tls tlsMCI <> []) by discriminate.
  split; [split; assumption|].
  exact (proj1 (proj2 (proj2 (proj2 (proj2 (proj2
           (serverTLSStep_fallback tlsStore tlsMCI "a.com" tlsServer H1 H2))))))).
Defined.

(** C9 counterexample: a TLS section listing the host with an empty secret
    name gives the default certificate without any warning. *)
Lemma empty_secret_name_no_warning :
  let '(servers, lg) :=
    createServersFromMCIs st0 [emptySecretMCI]
      (createUpstreamsFromMCIs st0 [emptySecretMCI] (getDefaultUpstream st0))
      (getDefaultUpstream st0) in
  option_map s_ssl_cert (servers !! "a.com") = Some (Some (st_default_ssl_cert st0)) /\
  existsb is_warning lg = false.
Proof. vm_compute. split; reflexivity. Qed.

(** ** Traffic shaping of canary backends *)

(** C10: for a canary resource, a backend created from a rule path carries
    the canary weight, header, header value, header pattern and cookie
    with a zero weight total, and is a [NoServer] backend; the backend
    created from its default backend carries the weight total as well. *)
Theorem canary_traffic_shaping (st : Store) (mci : MCI) (upstreams : Upstreams) :
  isCanary mci = true ->
  let c := a_canary (m_anns mci) in
  (forall path svc,
   p_service path = Some svc ->
   upstreams !! upstreamName (m_namespace mci) svc = None ->
   exists b,
     createPathUpstream st mci upstreams path !! upstreamName (m_namespace mci) svc = Some b /\
     b_noserver b = true /\
     b_tsp b = mkTSP (c_weight c) 0 (c_header c) (c_header_value c)
                 (c_header_pattern c) (c_cookie c)) /\
  (forall svc,
   m_default_backend mci = Some svc ->
   exists b,
     createDefBackendUpstream st mci upstreams !! upstreamName (m_namespace mci) svc = Some b /\
     b_noserver b = true /\
     b_tsp b = mkTSP (c_weight c) (c_weight_total c) (c_header c) (c_header_value c)
                 (c_header_pattern c) (c_cookie c)).
Proof.
  unfold isCanary. intros Hc. cbv zeta. split.
  - intros path svc Hp Hnone. unfold createPathUpstream. rewrite Hp, Hnone.
    cbn zeta. rewrite Hc.
    destruct (match (if a_service_upstream (m_anns mci) then _ else _) with
              | [] => _ | _ :: _ => _ end) as [endps|];
      [destruct (st_get_service st _)|];
      eexists; (split; [apply lookup_insert_eq|split; reflexivity]).
  - intros svc Hd. unfold createDefBackendUpstream. rewrite Hd. cbn zeta. rewrite Hc.
    eexists; (split; [apply lookup_insert_eq|split; reflexivity]).
Qed.

Lemma canary_traffic_shaping_witness :
  isCanary canaryBoth = true /\
  (forall path svc,
   p_service path = Some svc ->
   ({[defUpstreamName := getDefaultUpstream st0]} : Upstreams)
     !! upstreamName (m_namespace canaryBoth) svc = None ->
   exists b,
     createPathUpstream st0 canaryBoth {[defUpstreamName := getDefaultUpstream st0]} path
       !! upstreamName (m_namespace canaryBoth) svc = Some b /\
     b_noserver b = true /\
     b_tsp b = mkTSP 10 0 "X-Canary" "" "" "") /\
  (forall svc,
   m_default_backend canaryBoth = Some svc ->
   exists b,
     createDefBackendUpstream st0 canaryBoth {[defUpstreamName := getDefaultUpstream st0]}
       !! upstreamName (m_namespace canaryBoth) svc = Some b /\
     b_noserver b = true /\
     b_tsp b = mkTSP 10 100 "X-Canary" "" "" "").
Proof.
  assert (H : isCanary canaryBoth = true) by reflexivity.
  split; [exact H|].
  exact (canary_traffic_shaping st0 canaryBoth {[defUpstreamName := getDefaultUpstream st0]} H).
Defined.

(** ** Divergences on concrete resources *)

(** C1 (code bug): [bar] declares [a.com/a] and [a.com/b]; the plain
    resource [foo] already owns [a.com/b].  In the servers synthesized for
    both, the location of [a.com/b] traces back to [foo] alone, and the
    canary test on it reports a conflict (both lack the canary
    annotation); yet the admission check accepts [bar], because its own
    location at [a.com/a] makes the function return before [/b] is
    looked at. *)
Theorem checkOverlap_misses_conflict :
  exists srvs,
    option_map snd (getBackendServersFromMCIs st0 [overlapFoo; overlapBar]) = Some srvs /\
    mciForHostPath "a.com" "/a" srvs = Some [overlapBar] /\
    mciForHostPath "a.com" "/b" srvs = Some [overlapFoo] /\
    canaryConflict "a.com" "/b" (m_canary_annotation overlapBar) [overlapFoo]
      = CheckConflict "a.com" "/b" "default" "foo" /\
    checkOverlapWithMCI overlapBar srvs = CheckOK.
Proof.
  eexists. split; [vm_compute; reflexivity|].
  vm_compute. repeat split.
Qed.

(** C2 (code bug): a resource declaring [/x] as Exact and then twice as
    Prefix.  The search for an existing location stops at the first one
    with the same path; its type differs, so each Prefix entry is added
    anew and [a.com] ends with two ([/x], Prefix) locations. *)
Theorem duplicate_path_type_locations :
  option_map (countLoc "/x" PathTypePrefix)
    (serverLocs "a.com" (getBackendServersFromMCIs st0 [dupMCI])) = Some 2%nat.
Proof. vm_compute. reflexivity. Qed.

(** C3 (code bug): two resources with the same default backend service
    and different load-balancing annotations.  The default-backend branch
    recreates the backend, so the later resource's setting wins. *)
Theorem default_backend_last_writer_wins :
  option_map b_load_balancing
    (createUpstreamsFromMCIs st0 [defBackendMCI "m1" "ewma"; defBackendMCI "m2" "least_conn"]
       (getDefaultUpstream st0) !! "default-s1-80") = Some "least_conn".
Proof. vm_compute. reflexivity. Qed.

(** C4 (code bug): a canary resource for host [b.com], which no plain
    resource serves.  Its alternative backend is not merged anywhere, yet
    it stays in the final backend list. *)
Theorem orphan_canary_backend_kept :
  exists ups srvs,
    getBackendServersFromMCIs st0 [overlapFoo; orphanCanary] = Some (ups, srvs) /\
    existsb (fun b => String.eqb (b_name b) "default-s2-80" && b_noserver b) ups = true /\
    forallb (fun b => negb (existsb (String.eqb "default-s2-80") (b_alternative_backends b)))
      ups = true /\
    forallb (fun s => forallb (fun l => negb (String.eqb (l_backend l) "default-s2-80"))
                        (s_locations s)) srvs = true.
Proof. do 2 eexists. split; [vm_compute; reflexivity|]. vm_compute. repeat split. Qed.

(** C6 (code bug): a canary resource whose rule has no HTTP section makes
    the canary merge dereference [rule.HTTP]; the synthesis pass panics. *)
Theorem canary_without_http_panics :
  getBackendServersFromMCIs st0 [overlapFoo; noHTTPCanary] = None.
Proof. vm_compute. reflexivity. Qed.

(* ================================================================== *)
(** * Further properties of the code *)

(** ** Removed resources *)

Lemma existsb_eqb_In (k : string) (l : list string) :
  existsb (String.eqb k) l = true <-> In k l.
Proof.
  rewrite existsb_exists. split.
  - intros [x [Hx Heq]]. apply String.eqb_eq in Heq. now subst.
  - intros Hk. exists k. split; [exact Hk|apply String.eqb_refl].
Qed.

Lemma insertKey_In (set : list string) (k x : string) :
  In x (insertKey set k) <-> In x set \/ x = k.
Proof.
  unfold insertKey. destruct (existsb (String.eqb k) set) eqn:He.
  - apply existsb_eqb_In in He. split; [now left|intros [H|<-]; assumption].
  - rewrite in_app_iff. simpl. intuition.
Qed.

Lemma insertKey_NoDup (set : list string) (k : string) :
  List.NoDup set -> List.NoDup (insertKey set k).
Proof.
  intros Hnd. unfold insertKey. destruct (existsb (String.eqb k) set) eqn:He; [exact Hnd|].
  eapply Permutation.Permutation_NoDup; [apply Permutation_cons_append|].
  constructor; [|exact Hnd].
  rewrite <- existsb_eqb_In. congruence.
Qed.

Lemma serverMCIKeys_spec (key : MCI -> string) (acc : list string) (server : Server)
  (x : string) :
  In x (serverMCIKeys key acc server) <->
  In x acc \/ exists l m, In l (s_locations server) /\ l_mci l = Some m /\ key m = x.
Proof.
  unfold serverMCIKeys. generalize (s_locations server) as locs.
  intros locs. revert acc. induction locs as [|l locs IH]; intros acc; simpl.
  - split; [now left|]. intros [H|(l & m & [] & _)]. exact H.
  - rewrite IH. destruct (l_mci l) as [m|] eqn:Hl.
    + rewrite insertKey_In. split.
      * intros [[H| ->]|(l' & m' & H1 & H2 & H3)]; [now left| |].
        -- right. exists l, m. auto.
        -- right. exists l', m'. auto.
      * intros [H|(l' & m' & [<-|H1] & H2 & H3)]; [now left; left| |].
        -- rewrite Hl in H2. injection H2 as <-. now left; right.
        -- right. exists l', m'. auto.
    + split.
      * intros [H|(l' & m' & H1 & H2 & H3)]; [now left|right; exists l', m'; auto].
      * intros [H|(l' & m' & [<-|H1] & H2 & H3)]; [now left|congruence|].
        right. exists l', m'. auto.
Qed.

Lemma serverMCIKeys_NoDup (key : MCI -> string) (acc : list string) (server : Server) :
  List.NoDup acc -> List.NoDup (serverMCIKeys key acc server).
Proof.
  unfold serverMCIKeys. generalize (s_locations server) as locs.
  intros locs. revert acc. induction locs as [|l locs IH]; intros acc Hnd; simpl; [exact Hnd|].
  apply IH. destruct (l_mci l); [now apply insertKey_NoDup|exact Hnd].
Qed.


Lemma mciKeySet_spec (key : MCI -> string) (servers : list Server) (x : string) :
  In x (mciKeySet key servers) <-> ownsLocation key servers x.
Proof.
  unfold mciKeySet, ownsLocation.
  assert (Hgen : forall acc, In x (fold_left (serverMCIKeys key) servers acc) <->
            In x acc \/ exists s l m, In s servers /\ In l (s_locations s) /\
                                       l_mci l = Some m /\ key m = x).
  { induction servers as [|s servers IH]; intros acc; simpl.
    - split; [now left|]. intros [H|(s & l & m & [] & _)]. exact H.
    - rewrite IH, serverMCIKeys_spec. split.
      + intros [[H|(l & m & H1 & H2 & H3)]|(s' & l & m & H0 & H1 & H2 & H3)].
        * now left.
        * right. exists s, l, m. auto.
        * right. exists s', l, m. auto.
      + intros [H|(s' & l & m & [<-|H0] & H1 & H2 & H3)].
        * now left; left.
        * left. right. exists l, m. auto.
        * right. exists s', l, m. auto. }
  rewrite Hgen. simpl. intuition.
Qed.

Lemma mciKeySet_NoDup (key : MCI -> string) (servers : list Server) :
  List.NoDup (mciKeySet key servers).
Proof.
  unfold mciKeySet.
  assert (Hgen : forall acc, List.NoDup acc -> List.NoDup (fold_left (serverMCIKeys key) servers acc)).
  { induction servers as [|s servers IH]; intros acc Hnd; simpl; [exact Hnd|].
    apply IH. now apply serverMCIKeys_NoDup. }
  apply Hgen. constructor.
Qed.

Lemma string_ltb_total (a b : string) :
  a <> b -> String.ltb b a = false -> String.ltb a b = true.
Proof.
  unfold String.ltb. intros Hne. rewrite (String.compare_antisym b a).
  destruct (String.compare a b) eqn:Hc; simpl; try congruence.
  apply String.compare_eq_iff in Hc. congruence.
Qed.

Lemma sliceStable_strings_strict (l : list string) :
  List.NoDup l -> StronglySorted (fun a b => String.ltb a b = true) (sliceStable String.ltb l).
Proof.
  intros Hnd.
  assert (Hnd' : List.NoDup (sliceStable String.ltb l))
    by (eapply Permutation.Permutation_NoDup; [symmetry; apply sliceStable_perm|exact Hnd]).
  assert (Hs : StronglySorted (notLessBefore String.ltb) (sliceStable String.ltb l)).
  { apply Sorted_StronglySorted.
    - intros a b c Hab Hbc. unfold notLessBefore in *.
      exact (string_ltb_false_trans c b a Hbc Hab).
    - apply sliceStable_sorted. apply string_ltb_asym. }
  revert Hnd'. induction Hs as [|a r Hr IH Hall]; intros Hnd'; constructor.
  - apply IH. now inversion Hnd'.
  - inversion Hnd' as [|? ? Hnotin _]; subst.
    apply List.Forall_forall. intros b Hb.
    rewrite List.Forall_forall in Hall.
    apply string_ltb_total; [intros ->; contradiction|exact (Hall b Hb)].
Qed.

(** [getRemovedMCIs] lists a key exactly when some location of the old
    servers is owned by a resource with that key and no location of the
    new servers is. *)
Theorem getRemovedMCIs_spec (key : MCI -> string) (oldServers newServers : list Server)
  (k : string) :
  In k (getRemovedMCIs key oldServers newServers) <->
  ownsLocation key oldServers k /\ ~ ownsLocation key newServers k.
Proof.
  unfold getRemovedMCIs.
  split.
  - intros Hk. apply (Permutation_in _ (sliceStable_perm String.ltb _)) in Hk.
    apply filter_In in Hk as [Hold Hnew].
    split; [now apply mciKeySet_spec|].
    rewrite <- mciKeySet_spec, <- existsb_eqb_In. now destruct (existsb _ _).
  - intros [Hold Hnew].
    apply (Permutation_in _ (Permutation_sym (sliceStable_perm String.ltb _))).
    apply filter_In. split; [now apply mciKeySet_spec|].
    rewrite <- mciKeySet_spec, <- existsb_eqb_In in Hnew.
    destruct (existsb _ _); [contradiction|reflexivity].
Qed.

(** The list [getRemovedMCIs] returns is in strictly ascending order, so it
    holds no key twice. *)
Theorem getRemovedMCIs_strictly_sorted (key : MCI -> string)
  (oldServers newServers : list Server) :
  StronglySorted (fun a b => String.ltb a b = true) (getRemovedMCIs key oldServers newServers).
Proof.
  unfold getRemovedMCIs. apply sliceStable_strings_strict.
  apply List.NoDup_filter, mciKeySet_NoDup.
Qed.

(** ** Canary merge precondition *)

Lemma filter_length_lt_iff {A} (p : A -> bool) (l : list A) :
  (length (List.filter p l) < length l)%nat <-> exists x, In x l /\ p x = false.
Proof.
  induction l as [|x r IH]; simpl.
  - split; [lia|intros (y & [] & _)].
  - pose proof (List.filter_length_le p r) as Hle.
    destruct (p x) eqn:Hx; simpl.
    + rewrite <- Nat.succ_lt_mono, IH. split.
      * intros (y & Hy & Hp). exists y. auto.
      * intros (y & [<-|Hy] & Hp); [congruence|]. exists y. auto.
    + split; [intros _; exists x; auto|intros _; lia].
Qed.

(** With the canary resources of [mcis] set aside in input order,
    [nonCanaryMCIExists] holds exactly when some resource is not a
    canary. *)
Lemma filter_bool_List {A} (p : A -> bool) (l : list A) :
  filter p l = List.filter p l.
Proof.
  induction l as [|x l IH]; [reflexivity|].
  rewrite filter_cons. simpl. rewrite IH.
  case_decide as Hd; destruct (p x); simpl in *; tauto.
Qed.

Theorem nonCanaryMCIExists_iff (mcis : list MCI) :
  nonCanaryMCIExists mcis (filter isCanary mcis) = true <->
  exists mci, In mci mcis /\ isCanary mci = false.
Proof.
  unfold nonCanaryMCIExists. rewrite filter_bool_List, Z.ltb_lt, <- filter_length_lt_iff. lia.
Qed.

(** ** Secret selection *)

Lemma scanTLSBySAN_sound (st : Store) (namespace host : string) (tlss : list IngressTLS) :
  fst (scanTLSBySAN st namespace host tlss) <> "" ->
  exists tls cert x,
    In tls tlss /\ tls_secret tls = fst (scanTLSBySAN st namespace host tlss) /\
    st_get_local_ssl_cert st (namespace ++ "/" ++ tls_secret tls) = Some cert /\
    cert_certificate cert = Some x /\ st_verify_hostname st x host = true.
Proof.
  induction tlss as [|tls rest IH]; simpl; [congruence|].
  destruct (String.eqb (tls_secret tls) "") eqn:He.
  - intros H. destruct (IH H) as (t & c & x & Hin & Hs & Hg & Hc & Hv).
    exists t, c, x. auto.
  - destruct (st_get_local_ssl_cert st (namespace ++ "/" ++ tls_secret tls)) as [cert|] eqn:Hg.
    + destruct (cert_certificate cert) as [x|] eqn:Hc.
      * destruct (st_verify_hostname st x host) eqn:Hv.
        -- intros _. exists tls, cert, x. auto.
        -- intros H. destruct (IH H) as (t & c & y & Hin & Hs & Hg' & Hc' & Hv').
           exists t, c, y. auto.
      * intros H. destruct (IH H) as (t & c & y & Hin & Hs & Hg' & Hc' & Hv').
        exists t, c, y. auto.
    + destruct (scanTLSBySAN st namespace host rest) as [r lg] eqn:Hr. simpl.
      simpl in IH. intros H. specialize (IH H).
      destruct IH as (t & c & y & Hin & Hs & Hg' & Hc' & Hv').
      exists t, c, y. auto.
Qed.

(** A non-empty secret name chosen for a host comes from a TLS entry of the
    resource that lists the host (ASCII case-insensitively), or from one
    whose secret loads and whose certificate validates the host. *)
Theorem extractTLSSecretNameFromMCI_sound (st : Store) (host : string) (mci : MCI) :
  fst (extractTLSSecretNameFromMCI st host mci) <> "" ->
  exists tls,
    In tls (m_tls mci) /\ tls_secret tls = fst (extractTLSSecretNameFromMCI st host mci) /\
    (existsb (fun h => String.eqb (toLowerCaseASCII h) (toLowerCaseASCII host))
       (tls_hosts tls) = true \/
     exists cert x,
       st_get_local_ssl_cert st (m_namespace mci ++ "/" ++ tls_secret tls) = Some cert /\
       cert_certificate cert = Some x /\ st_verify_hostname st x host = true).
Proof.
  unfold extractTLSSecretNameFromMCI.
  destruct (find _ (m_tls mci)) as [tls|] eqn:Hf.
  - intros _. apply find_some in Hf as [Hin Hh]. exists tls. auto.
  - intros H. destruct (scanTLSBySAN_sound st (m_namespace mci) host (m_tls mci) H)
      as (t & c & x & Hin & Hs & Hg & Hc & Hv).
    exists t. split; [exact Hin|]. split; [exact Hs|]. right. exists c, x. auto.
Qed.

Lemma extractTLSSecretNameFromMCI_sound_witness :
  fst (extractTLSSecretNameFromMCI tlsStore "b.com" sanMCI) <> "" /\
  exists tls,
    In tls (m_tls sanMCI) /\
    tls_secret tls = fst (extractTLSSecretNameFromMCI tlsStore "b.com" sanMCI) /\
    (existsb (fun h => String.eqb (toLowerCaseASCII h) (toLowerCaseASCII "b.com"))
       (tls_hosts tls) = true \/
     exists cert x,
       st_get_local_ssl_cert tlsStore (m_namespace sanMCI ++ "/" ++ tls_secret tls)
         = Some cert /\
       cert_certificate cert = Some x /\ st_verify_hostname tlsStore x "b.com" = true).
Proof.
  assert (H : fst (extractTLSSecretNameFromMCI tlsStore "b.com" sanMCI) <> "")
    by (vm_compute; discriminate).
  split; [exact H|].
  exact (extractTLSSecretNameFromMCI_sound tlsStore "b.com" sanMCI H).
Defined.

(** ** Owners of a host and path *)


Lemma mciForLocations_spec (path : string) (locs : list Location) :
  (forall ms, mciForLocations path locs = Some ms ->
   forall m, In m ms <-> exists l, In l locs /\ l_path l = path /\
                                   l_is_def_backend l = false /\ l_mci l = Some m) /\
  (mciForLocations path locs = None <->
   exists l, In l locs /\ l_path l = path /\ l_is_def_backend l = false /\ l_mci l = None).
Proof.
  induction locs as [|loc rest [IHs IHn]]; simpl.
  - split.
    + intros ms [= <-] m. split; [intros []|intros (l & [] & _)].
    + split; [discriminate|intros (l & [] & _)].
  - destruct (negb (String.eqb (l_path loc) path) || l_is_def_backend loc) eqn:Hskip.
    + assert (Hno : ~ (l_path loc = path /\ l_is_def_backend loc = false)).
      { intros [Hp Hd]. rewrite Hp, Hd, String.eqb_refl in Hskip. discriminate. }
      split.
      * intros ms Hms m. rewrite (IHs ms Hms m). split.
        -- intros (l & Hl & Hp & Hd & Hm). exists l. auto.
        -- intros (l & [<-|Hl] & Hp & Hd & Hm); [tauto|]. exists l. auto.
      * rewrite IHn. split.
        -- intros (l & Hl & Hp & Hd & Hm). exists l. auto.
        -- intros (l & [<-|Hl] & Hp & Hd & Hm); [tauto|]. exists l. auto.
    + apply orb_false_iff in Hskip as [Hp Hd].
      apply negb_false_iff, String.eqb_eq in Hp.
      destruct (l_mci loc) as [m0|] eqn:Hm0;
        destruct (mciForLocations path rest) as [ms0|] eqn:Hr.
      * split; [|split; [discriminate|]].
        -- intros ms [= <-] m. simpl. rewrite (IHs ms0 eq_refl m). split.
           ++ intros [<-|(l & Hl & Hp' & Hd' & Hm)]; [exists loc; auto|exists l; auto].
           ++ intros (l & [<-|Hl] & Hp' & Hd' & Hm); [left; congruence|].
              right. exists l. auto.
        -- intros (l & [<-|Hl] & Hp' & Hd' & Hm); [congruence|].
           discriminate (proj2 IHn (ex_intro _ l (conj Hl (conj Hp' (conj Hd' Hm))))).
      * split; [discriminate|]. split; [intros _|reflexivity].
        destruct (proj1 IHn eq_refl) as (l & Hl & Hp' & Hd' & Hm). exists l. auto.
      * split; [discriminate|]. split; [intros _|reflexivity]. exists loc. auto.
      * split; [discriminate|]. split; [intros _|reflexivity]. exists loc. auto.
Qed.

Lemma mciForHostPath_owners (host path : string) (servers : list Server) :
  (forall ms, mciForHostPath host path servers = Some ms ->
   forall m, In m ms <-> exists l, inspectedLocation host path servers l /\ l_mci l = Some m) /\
  (mciForHostPath host path servers = None <->
   exists l, inspectedLocation host path servers l /\ l_mci l = None).
Proof.
  unfold inspectedLocation.
  induction servers as [|s rest [IHs IHn]]; simpl.
  - split.
    + intros ms [= <-] m. split; [intros []|intros (l & (s & [] & _) & _)].
    + split; [discriminate|intros (l & (s & [] & _) & _)].
  - destruct (negb (String.eqb host (s_hostname s))) eqn:Hh.
    + assert (Hne : s_hostname s <> host).
      { intros Heq. rewrite Heq, String.eqb_refl in Hh. discriminate. }
      split.
      * intros ms Hms m. rewrite (IHs ms Hms m). split.
        -- intros (l & (s' & Hs & H1 & H2 & H3 & H4) & Hm). exists l.
           split; [exists s'; auto|exact Hm].
        -- intros (l & (s' & [<-|Hs] & H1 & H2 & H3 & H4) & Hm); [congruence|].
           exists l. split; [exists s'; auto|exact Hm].
      * rewrite IHn. split.
        -- intros (l & (s' & Hs & H1 & H2 & H3 & H4) & Hm). exists l.
           split; [exists s'; auto|exact Hm].
        -- intros (l & (s' & [<-|Hs] & H1 & H2 & H3 & H4) & Hm); [congruence|].
           exists l. split; [exists s'; auto|exact Hm].
    + apply negb_false_iff, String.eqb_eq in Hh.
      destruct (mciForLocations_spec path (s_locations s)) as [Ls Ln].
      destruct (mciForLocations path (s_locations s)) as [ms1|] eqn:H1;
        destruct (mciForHostPath host path rest) as [ms2|] eqn:H2.
      * split; [|split; [discriminate|]].
        -- intros ms [= <-] m. rewrite in_app_iff, (Ls ms1 eq_refl m), (IHs ms2 eq_refl m).
           split.
           ++ intros [(l & Hl & Hp & Hd & Hm)|(l & (s' & Hs & Hs1 & Hs2 & Hs3 & Hs4) & Hm)].
              ** exists l. split; [exists s; auto|exact Hm].
              ** exists l. split; [exists s'; auto|exact Hm].
           ++ intros (l & (s' & [<-|Hs] & Hs1 & Hs2 & Hs3 & Hs4) & Hm).
              ** left. exists l. auto.
              ** right. exists l. split; [exists s'; auto|exact Hm].
        -- intros (l & (s' & [<-|Hs] & Hs1 & Hs2 & Hs3 & Hs4) & Hm).
           ++ discriminate (proj2 Ln (ex_intro _ l (conj Hs2 (conj Hs3 (conj Hs4 Hm))))).
           ++ discriminate (proj2 IHn (ex_intro _ l
                (conj (ex_intro _ s' (conj Hs (conj Hs1 (conj Hs2 (conj Hs3 Hs4))))) Hm))).
      * split; [discriminate|]. split; [intros _|reflexivity].
        destruct (proj1 IHn eq_refl) as (l & (s' & Hs & Hs1 & Hs2 & Hs3 & Hs4) & Hm).
        exists l. split; [exists s'; auto|exact Hm].
      * split; [discriminate|]. split; [intros _|reflexivity].
        destruct (proj1 Ln eq_refl) as (l & Hl & Hp & Hd & Hm).
        exists l. split; [exists s; auto|exact Hm].
      * split; [discriminate|]. split; [intros _|reflexivity].
        destruct (proj1 Ln eq_refl) as (l & Hl & Hp & Hd & Hm).
        exists l. split; [exists s; auto|exact Hm].
Qed.

(** [mciForHostPath] fails (a nil dereference) exactly when an inspected
    location has no owner; otherwise it returns the owners of the
    inspected locations. *)
Theorem mciForHostPath_spec (host path : string) (servers : list Server) :
  (forall ms, mciForHostPath host path servers = Some ms ->
   forall m, In m ms <-> exists l, inspectedLocation host path servers l /\ l_mci l = Some m) /\
  (mciForHostPath host path servers = None <->
   exists l, inspectedLocation host path servers l /\ l_mci l = None).
Proof. exact (mciForHostPath_owners host path servers). Qed.

(** ** What the admission check reports *)

Lemma canaryConflict_inv (host path : string) (a : BoolAnnotation) (es : list MCI)
  (h p ns n : string) :
  canaryConflict host path a es = CheckConflict h p ns n ->
  h = host /\ p = path /\
  exists e, In e es /\ m_namespace e = ns /\ m_name e = n /\
    (annotationTrue a && annotationTrue (m_canary_annotation e) ||
     annotationMissing a && annotationMissing (m_canary_annotation e)) = true.
Proof.
  induction es as [|e rest IH]; simpl; [discriminate|].
  destruct (annotationTrue a && annotationTrue (m_canary_annotation e)) eqn:Ht.
  - intros [= <- <- <- <-]. repeat split. exists e. rewrite Ht. auto.
  - destruct (annotationMissing a && annotationMissing (m_canary_annotation e)) eqn:Hm.
    + intros [= <- <- <- <-]. repeat split. exists e. rewrite Ht, Hm. auto.
    + intros H. destruct (IH H) as (-> & -> & e' & He' & H1 & H2 & H3).
      repeat split. exists e'. auto.
Qed.

(** What a conflict reported by [checkOverlapWithMCI] tells: the named
    resource owns a location at that host and path in the servers, it is
    not the candidate itself, and the two are both plain or both canary. *)
Lemma checkOverlapWithMCI_conflict_inv (mci : MCI) (servers : list Server)
  (h p ns n : string) :
  checkOverlapWithMCI mci servers = CheckConflict h p ns n ->
  exists existing ms,
    mciForHostPath h p servers = Some ms /\ In existing ms /\
    m_namespace existing = ns /\ m_name existing = n /\
    sameMCI existing mci = false /\
    (annotationTrue (m_canary_annotation mci) &&
       annotationTrue (m_canary_annotation existing) ||
     annotationMissing (m_canary_annotation mci) &&
       annotationMissing (m_canary_annotation existing)) = true.
Proof.
  unfold checkOverlapWithMCI. induction (m_rules mci) as [|r rules IH]; simpl; [discriminate|].
  destruct (r_http r) as [paths|]; [|exact IH].
  assert (Hp : forall host, checkPaths mci host paths servers = Some (CheckConflict h p ns n) ->
    exists existing ms,
      mciForHostPath h p servers = Some ms /\ In existing ms /\
      m_namespace existing = ns /\ m_name existing = n /\
      sameMCI existing mci = false /\
      (annotationTrue (m_canary_annotation mci) &&
         annotationTrue (m_canary_annotation existing) ||
       annotationMissing (m_canary_annotation mci) &&
         annotationMissing (m_canary_annotation existing)) = true).
  { intros host. induction paths as [|path rest IHp]; simpl; [discriminate|].
    destruct (p_service path); [|exact IHp].
    destruct (mciForHostPath host _ servers) as [[|e0 es]|] eqn:Hm; [exact IHp|..|discriminate].
    destruct (existsb _ _) eqn:Hsame; [discriminate|].
    intros [= Hc].
    destruct (canaryConflict_inv host (if String.eqb (p_path path) "" then rootLocation
                                       else p_path path)
                (m_canary_annotation mci) (e0 :: es) h p ns n Hc)
      as (-> & -> & e & He & H1 & H2 & H3).
    exists e, (e0 :: es). repeat split; auto.
    apply Bool.not_true_iff_false. intros Hs. apply Bool.not_true_iff_false in Hsame.
    apply Hsame, existsb_exists. exists e. auto. }
  destruct (checkPaths mci (ruleHost r) paths servers) as [res|] eqn:Hc; [|exact IH].
  intros ->. exact (Hp _ Hc).
Qed.

(** A conflict names a resource other than the candidate, which owns a
    non-placeholder location at the reported host and path, and whose
    canary annotation is, like the candidate's, "true" or, like the
    candidate's, missing. *)
Theorem checkOverlapWithMCI_conflict_owner (mci : MCI) (servers : list Server)
  (h p ns n : string) :
  checkOverlapWithMCI mci servers = CheckConflict h p ns n ->
  ~ (ns = m_namespace mci /\ n = m_name mci) /\
  exists existing l,
    inspectedLocation h p servers l /\ l_mci l = Some existing /\
    m_namespace existing = ns /\ m_name existing = n /\
    ((annotationTrue (m_canary_annotation mci) = true /\
      annotationTrue (m_canary_annotation existing) = true) \/
     (annotationMissing (m_canary_annotation mci) = true /\
      annotationMissing (m_canary_annotation existing) = true)).
Proof.
  intros H. destruct (checkOverlapWithMCI_conflict_inv mci servers h p ns n H)
    as (e & ms & Hms & Hin & Hns & Hn & Hsame & Hc).
  split.
  - intros [-> ->]. unfold sameMCI in Hsame. rewrite Hns, Hn, !String.eqb_refl in Hsame.
    discriminate.
  - apply (proj1 (mciForHostPath_owners h p servers) ms Hms e) in Hin as (l & Hl & Hm).
    exists e, l. repeat split; auto.
    apply orb_true_iff in Hc as [Hc|Hc]; apply andb_true_iff in Hc; tauto.
Qed.

Lemma checkOverlapWithMCI_conflict_owner_witness :
  checkOverlapWithMCI overlapBaz
    (serversOf (getBackendServersFromMCIs st0 [overlapFoo; overlapBaz]))
    = CheckConflict "a.com" "/b" "default" "foo" /\
  ~ ("default" = m_namespace overlapBaz /\ "foo" = m_name overlapBaz) /\
  exists existing l,
    inspectedLocation "a.com" "/b"
      (serversOf (getBackendServersFromMCIs st0 [overlapFoo; overlapBaz])) l /\
    l_mci l = Some existing /\ m_namespace existing = "default" /\ m_name existing = "foo" /\
    ((annotationTrue (m_canary_annotation overlapBaz) = true /\
      annotationTrue (m_canary_annotation existing) = true) \/
     (annotationMissing (m_canary_annotation overlapBaz) = true /\
      annotationMissing (m_canary_annotation existing) = true)).
Proof.
  assert (H : checkOverlapWithMCI overlapBaz
                (serversOf (getBackendServersFromMCIs st0 [overlapFoo; overlapBaz]))
              = CheckConflict "a.com" "/b" "default" "foo") by (vm_compute; reflexivity).
  split; [exact H|].
  exact (checkOverlapWithMCI_conflict_owner _ _ _ _ _ _ H).
Defined.

(** A candidate whose canary annotation is present but not "true" (an
    explicit "false", or a value that does not parse) is never rejected
    for an overlap, whatever the servers hold. *)
Theorem checkOverlapWithMCI_explicit_noncanary (mci : MCI) :
  annotationTrue (m_canary_annotation mci) = false ->
  annotationMissing (m_canary_annotation mci) = false ->
  forall servers h p ns n, checkOverlapWithMCI mci servers <> CheckConflict h p ns n.
Proof.
  intros Ht Hm servers h p ns n H.
  destruct (checkOverlapWithMCI_conflict_inv mci servers h p ns n H)
    as (e & ms & _ & _ & _ & _ & _ & Hc).
  rewrite Ht, Hm in Hc. discriminate.
Qed.

Lemma checkOverlapWithMCI_explicit_noncanary_witness :
  annotationTrue (m_canary_annotation explicitNonCanary) = false /\
  annotationMissing (m_canary_annotation explicitNonCanary) = false /\
  checkOverlapWithMCI explicitNonCanary
    (serversOf (getBackendServersFromMCIs st0 [overlapFoo; explicitNonCanary]))
    <> CheckConflict "a.com" "/b" "default" "foo".
Proof.
  assert (Ht : annotationTrue (m_canary_annotation explicitNonCanary) = false)
    by reflexivity.
  assert (Hm : annotationMissing (m_canary_annotation explicitNonCanary) = false)
    by reflexivity.
  split; [exact Ht|]. split; [exact Hm|].
  exact (checkOverlapWithMCI_explicit_noncanary explicitNonCanary Ht Hm _ _ _ _ _).
Defined.

(** ** Servers stay keyed by their host name *)

Lemma fold_left_invariant {A B} (P : A -> Prop) (f : A -> B -> A) (l : list B) (a : A) :
  (forall a b, In b l -> P a -> P (f a b)) -> P a -> P (fold_left f l a).
Proof.
  revert a. induction l as [|b l IH]; intros a Hf Ha; simpl; [exact Ha|].
  apply IH; [intros a' b' Hb; apply Hf; right; exact Hb|]. apply Hf; [left|]; auto.
Qed.

Lemma keyed_insert_same (servers : Servers) (k : string) (v v' : Server) :
  keyedServers servers -> servers !! k = Some v -> s_hostname v' = s_hostname v ->
  keyedServers (<[k := v']> servers).
Proof.
  intros Hk Hv Hn. apply map_Forall_insert_2; [|exact Hk].
  rewrite Hn. exact (Hk k v Hv).
Qed.

Lemma initialServers_keyed (st : Store) (du : Backend) :
  keyedServers (initialServers st du).
Proof. unfold keyedServers, initialServers. apply map_Forall_singleton. reflexivity. Qed.

Lemma bindCatchAll_keyed (mci : MCI) (bu : Backend) (servers : Servers) :
  keyedServers servers -> keyedServers (bindCatchAll mci bu servers).
Proof.
  intros Hk. unfold bindCatchAll.
  destruct (servers !! defServerName) as [s|] eqn:Hs; [|exact Hk].
  destruct (s_locations s) as [|defLoc rest]; [exact Hk|].
  apply (keyed_insert_same _ _ s); auto.
Qed.

Lemma createServersPass1_keyed (ups : Upstreams) (du : Backend) (servers : Servers)
  (mci : MCI) :
  keyedServers servers -> keyedServers (createServersPass1 ups du servers mci).
Proof.
  intros Hk. unfold createServersPass1. destruct (isCanary mci); [exact Hk|].
  assert (H1 : forall un s1, keyedServers s1 ->
    keyedServers (fold_left
      (fun servers rule =>
         match servers !! ruleHost rule with
         | Some _ => servers
         | None =>
             <[ruleHost rule := mkServer (ruleHost rule) [placeholderLocation un mci] None
                         (a_ssl_passthrough (m_anns mci)) (a_ssl_ciphers (m_anns mci))
                         false]> servers
         end) (m_rules mci) s1)).
  { intros un s1 Hs1. apply fold_left_invariant; [|exact Hs1].
    intros acc r _ Hacc. destruct (acc !! ruleHost r); [exact Hacc|].
    apply map_Forall_insert_2; [reflexivity|exact Hacc]. }
  destruct (m_default_backend mci) as [svc|]; [|apply H1; exact Hk].
  destruct (ups !! upstreamName (m_namespace mci) svc); apply H1;
    [apply bindCatchAll_keyed|]; exact Hk.
Qed.

Lemma serverTLSStep_hostname (st : Store) (mci : MCI) (host : string) (s : Server) :
  s_hostname (fst (serverTLSStep st mci host s)) = s_hostname s.
Proof. unfold serverTLSStep. repeat case_match; reflexivity. Qed.

Lemma createServersPass2_keyed (st : Store) (acc : Servers * list LogEntry) (mci : MCI) :
  keyedServers (fst acc) -> keyedServers (fst (createServersPass2 st acc mci)).
Proof.
  unfold createServersPass2. destruct (isCanary mci); [auto|].
  apply (fold_left_invariant (fun a => keyedServers (fst a))).
  intros [servers lg] r _ Hk. unfold createServersPass2Rule. simpl in Hk.
  destruct (servers !! ruleHost r) as [s|] eqn:Hs; [|exact Hk].
  pose proof (serverTLSStep_hostname st mci (ruleHost r)
    (if String.eqb (s_ssl_ciphers s) "" && negb (String.eqb (a_ssl_ciphers (m_anns mci)) "")
     then set_ssl_ciphers s (a_ssl_ciphers (m_anns mci)) else s)) as Hn.
  destruct (serverTLSStep st mci (ruleHost r) _) as [s2 lg2]. simpl in *.
  apply (keyed_insert_same _ _ s); [exact Hk|exact Hs|].
  rewrite Hn. case_match; reflexivity.
Qed.

Lemma createServersFromMCIs_keyed (st : Store) (mcis : list MCI) (ups : Upstreams)
  (du : Backend) :
  keyedServers (fst (createServersFromMCIs st mcis ups du)).
Proof.
  unfold createServersFromMCIs.
  apply (fold_left_invariant (fun a => keyedServers (fst a))).
  - intros acc mci _. apply createServersPass2_keyed.
  - simpl. apply fold_left_invariant; [|apply initialServers_keyed].
    intros s mci _. apply createServersPass1_keyed.
Qed.

Lemma locationPathStep_keyed (mci : MCI) (skey : string) (acc : option (Upstreams * Servers))
  (path : HTTPPath) :
  accServersKeyed acc -> accServersKeyed (locationPathStep mci skey acc path).
Proof.
  unfold locationPathStep. destruct acc as [[ups servers]|]; [|auto]. simpl. intros Hk.
  destruct (p_service path) as [svc|]; [|exact Hk].
  destruct (ups !! _) as [u|]; [|exact I].
  destruct (b_noserver u); [exact Hk|].
  destruct (servers !! skey) as [server|] eqn:Hs; [|exact I].
  destruct (addOrReplaceLocation _ _ _ _ _) as [[addLoc www] locs].
  destruct (if addLoc then _ else _) as [locs' www'].
  simpl. apply (keyed_insert_same _ _ server); [exact Hk|exact Hs|].
  destruct www'; reflexivity.
Qed.

Lemma locationsFromMCIs_keyed (mcis : list MCI) (acc : option (Upstreams * Servers)) :
  accServersKeyed acc -> accServersKeyed (locationsFromMCIs mcis acc).
Proof.
  unfold locationsFromMCIs. apply fold_left_invariant. intros a mci _.
  apply fold_left_invariant. intros [[ups servers]|] r _ Hk; [|exact I].
  unfold locationRuleStep.
  destruct (isNone (r_http r) && _); [exact Hk|].
  destruct (servers !! _); [|exact I].
  destruct (r_http r) as [paths|]; [|exact Hk].
  apply fold_left_invariant; [|exact Hk].
  intros a' p _. apply locationPathStep_keyed.
Qed.

Lemma assembleUpstream_keyed (st : Store) (acc : list Backend * Servers) (u : Backend) :
  keyedServers (snd acc) -> keyedServers (snd (assembleUpstream st acc u)).
Proof.
  destruct acc as [aU servers]. simpl. intros Hk. unfold assembleUpstream.
  destruct (String.eqb (b_name u) defUpstreamName); [exact Hk|].
  pose proof (fold_left_invariant (fun a : Servers * list Backend * bool => keyedServers (fst (fst a)))
    (fun (acc : Servers * list Backend * bool) (kv : string * Server) =>
       let '(servers, nbs, h) := acc in
       let '(locs, nbs', h') :=
         customDefaultBackendLocs st u (snd kv) (s_locations (snd kv)) in
       (<[fst kv := set_locations (snd kv) locs]> servers, (nbs ++ nbs')%list, h || h'))
    (map_to_list servers) (servers, [], false)) as Hf.
  destruct (fold_left _ (map_to_list servers) (servers, [], false))
    as [[servers' nbs] h]. simpl in Hf. simpl. apply Hf; [|exact Hk].
  intros [[acc nbs0] h0] [k v] Hin Hacc. simpl in Hacc |- *.
  destruct (customDefaultBackendLocs st u v (s_locations v)) as [[locs nbs'] h'].
  simpl. apply map_Forall_insert_2; [|exact Hacc]. simpl.
  apply (Hk k v). apply elem_of_map_to_list, list_elem_of_In. exact Hin.
Qed.

Lemma list_fmap_fst_map {A B} (l : list (A * B)) : map fst l = l.*1.
Proof. induction l as [|x l IH]; simpl; [reflexivity|]. now rewrite IH. Qed.

Lemma sortBackendsAndServers_hostnames (aU : list Backend) (servers : Servers) :
  keyedServers servers ->
  List.NoDup (map s_hostname (snd (sortBackendsAndServers aU servers))).
Proof.
  intros Hk. unfold sortBackendsAndServers. simpl.
  apply (Permutation.Permutation_NoDup
           (Permutation_map s_hostname (Permutation_sym (sliceStable_perm _ _)))).
  rewrite map_map.
  rewrite (map_ext_in _ fst).
  - rewrite list_fmap_fst_map. apply NoDup_ListNoDup, NoDup_fst_map_to_list.
  - intros [k v] Hin. simpl. apply (Hk k v).
    apply elem_of_map_to_list, list_elem_of_In. exact Hin.
Qed.

Lemma getBackendServersFromMCIs_hostnames_NoDup (st : Store) (mcis : list MCI)
  (backends : list Backend) (servers : list Server) :
  getBackendServersFromMCIs st mcis = Some (backends, servers) ->
  List.NoDup (map s_hostname servers).
Proof.
  unfold getBackendServersFromMCIs. cbv zeta.
  pose proof (locationsFromMCIs_keyed mcis
    (Some (createUpstreamsFromMCIs st mcis (getDefaultUpstream st),
           fst (createServersFromMCIs st mcis
                  (createUpstreamsFromMCIs st mcis (getDefaultUpstream st))
                  (getDefaultUpstream st))))
    (createServersFromMCIs_keyed _ _ _ _)) as Hl.
  destruct (locationsFromMCIs _ _) as [[u1 s1]|]; [|discriminate]. simpl in Hl.
  destruct (if nonCanaryMCIExists _ _ then _ else _) as [u2|]; [|discriminate].
  pose proof (fold_left_invariant (fun a => keyedServers (snd a)) (assembleUpstream st)
    (map snd (map_to_list u2)) ([], s1)
    (fun a b _ => assembleUpstream_keyed st a b) Hl) as Ha.
  destruct (fold_left (assembleUpstream st) _ _) as [aU s2]. simpl in Ha.
  intros [= _ <-]. exact (sortBackendsAndServers_hostnames aU s2 Ha).
Qed.

(** No two servers synthesized by [getBackendServersFromMCIs] share a host
    name: every pass writes a server back under its own host name, and
    the final list is read off the server map. *)
Theorem getBackendServersFromMCIs_unique_hostnames (st : Store) (mcis : list MCI)
  (backends : list Backend) (servers : list Server) :
  getBackendServersFromMCIs st mcis = Some (backends, servers) ->
  List.NoDup (map s_hostname servers).
Proof. apply getBackendServersFromMCIs_hostnames_NoDup. Qed.

Lemma getBackendServersFromMCIs_unique_hostnames_witness :
  exists backends servers,
    getBackendServersFromMCIs st0 [overlapFoo; hostBMCI; overlapBar]
      = Some (backends, servers) /\
    List.NoDup (map s_hostname servers).
Proof.
  destruct (getBackendServersFromMCIs st0 [overlapFoo; hostBMCI; overlapBar])
    as [[backends servers]|] eqn:H; [|vm_compute in H; discriminate].
  exists backends, servers. split; [reflexivity|].
  exact (getBackendServersFromMCIs_unique_hostnames st0 _ backends servers H).
Defined.

(** ** The upstream map *)

(** Backends are keyed by their name. *)
Lemma insert_named (u : Upstreams) (k : string) (b : Backend) :
  b_name b = k -> map_Forall (fun k b => b_name b = k) u ->
  map_Forall (fun k b => b_name b = k) (<[k := b]> u).
Proof. intros Hb Hu. apply map_Forall_insert_2; assumption. Qed.

Lemma createDefBackendUpstream_named (st : Store) (mci : MCI) (u : Upstreams) :
  map_Forall (fun k b => b_name b = k) u ->
  map_Forall (fun k b => b_name b = k) (createDefBackendUpstream st mci u).
Proof.
  intros Hu. unfold createDefBackendUpstream.
  repeat case_match; try assumption; apply insert_named; auto.
Qed.

Lemma createPathUpstream_named (st : Store) (mci : MCI) (u : Upstreams) (path : HTTPPath) :
  map_Forall (fun k b => b_name b = k) u ->
  map_Forall (fun k b => b_name b = k) (createPathUpstream st mci u path).
Proof.
  intros Hu. unfold createPathUpstream.
  repeat case_match; try assumption; apply insert_named; auto.
Qed.

(** Every entry of the upstream map built by [createUpstreamsFromMCIs] is
    the backend of that name, provided the default backend carries its
    reserved name. *)
Theorem createUpstreamsFromMCIs_named (st : Store) (mcis : list MCI) (du : Backend) :
  b_name du = defUpstreamName ->
  map_Forall (fun k b => b_name b = k) (createUpstreamsFromMCIs st mcis du).
Proof.
  intros Hdu. unfold createUpstreamsFromMCIs.
  apply fold_left_invariant; [|apply map_Forall_singleton; exact Hdu].
  intros u mci _ Hu. unfold createMCIUpstreams.
  apply fold_left_invariant; [|apply createDefBackendUpstream_named; exact Hu].
  intros u' r _ Hu'. unfold createRuleUpstreams. destruct (r_http r) as [paths|]; [|exact Hu'].
  apply fold_left_invariant; [|exact Hu'].
  intros u'' p _. apply createPathUpstream_named.
Qed.

Lemma createUpstreamsFromMCIs_named_witness :
  b_name (getDefaultUpstream st0) = defUpstreamName /\
  map_Forall (fun k b => b_name b = k)
    (createUpstreamsFromMCIs st0 [overlapFoo; defBackendMCI "d" ""; canaryBoth]
       (getDefaultUpstream st0)).
Proof.
  assert (H : b_name (getDefaultUpstream st0) = defUpstreamName) by reflexivity.
  split; [exact H|]. exact (createUpstreamsFromMCIs_named st0 _ _ H).
Defined.

Lemma insert_is_Some_mono {V} (u : gmap string V) (k k' : string) (b : V) :
  is_Some (u !! k) -> is_Some (<[k' := b]> u !! k).
Proof.
  intros H. destruct (decide (k' = k)) as [->|Hne].
  - rewrite lookup_insert_eq. eauto.
  - rewrite lookup_insert_ne by exact Hne. exact H.
Qed.

Lemma createPathUpstream_keeps (st : Store) (mci : MCI) (u : Upstreams) (path : HTTPPath)
  (k : string) (b : Backend) :
  u !! k = Some b -> createPathUpstream st mci u path !! k = Some b.
Proof.
  intros Hk. unfold createPathUpstream.
  destruct (p_service path) as [svc|]; [|exact Hk].
  destruct (u !! upstreamName (m_namespace mci) svc) eqn:Hn; [exact Hk|].
  assert (Hne : upstreamName (m_namespace mci) svc <> k) by congruence.
  repeat case_match; rewrite lookup_insert_ne by exact Hne; exact Hk.
Qed.

Lemma createRuleUpstreams_keeps_entry (st : Store) (mci : MCI) (u : Upstreams) (r : Rule)
  (k : string) (b : Backend) :
  u !! k = Some b -> createRuleUpstreams st mci u r !! k = Some b.
Proof.
  intros Hk. unfold createRuleUpstreams. destruct (r_http r) as [paths|]; [|exact Hk].
  apply (fold_left_invariant (fun u => u !! k = Some b)); [|exact Hk].
  intros u' p _. apply createPathUpstream_keeps.
Qed.

(** Rule paths never overwrite an upstream already in the map: the entry
    under every existing key is unchanged by a rule. *)
Theorem createRuleUpstreams_keeps (st : Store) (mci : MCI) (u : Upstreams) (r : Rule)
  (k : string) (b : Backend) :
  u !! k = Some b -> createRuleUpstreams st mci u r !! k = Some b.
Proof. exact (createRuleUpstreams_keeps_entry st mci u r k b). Qed.

Lemma createRuleUpstreams_keeps_witness :
  let u := createUpstreamsFromMCIs st0 [overlapFoo] (getDefaultUpstream st0) in
  let k := upstreamName "default" svc1 in
  exists b, u !! k = Some b /\
    createRuleUpstreams st0 canaryBoth u (mkRule "a.com" (Some [prefixPath "/" svc1]))
      !! k = Some b.
Proof.
  cbv zeta.
  destruct (createUpstreamsFromMCIs st0 [overlapFoo] (getDefaultUpstream st0)
              !! upstreamName "default" svc1) as [b|] eqn:H;
    [|vm_compute in H; discriminate].
  exists b. split; [reflexivity|].
  exact (createRuleUpstreams_keeps st0 canaryBoth _ _ _ b H).
Defined.

Lemma createPathUpstream_mono (st : Store) (mci : MCI) (u : Upstreams) (path : HTTPPath)
  (k : string) :
  is_Some (u !! k) -> is_Some (createPathUpstream st mci u path !! k).
Proof. intros [b Hb]. exists b. apply createPathUpstream_keeps. exact Hb. Qed.

Lemma createPathUpstream_adds (st : Store) (mci : MCI) (u : Upstreams) (path : HTTPPath)
  (svc : ServiceBackend) :
  p_service path = Some svc ->
  is_Some (createPathUpstream st mci u path !! upstreamName (m_namespace mci) svc).
Proof.
  intros Hp. unfold createPathUpstream. rewrite Hp.
  destruct (u !! upstreamName (m_namespace mci) svc) eqn:Hn; [rewrite Hn; eauto|].
  repeat case_match; rewrite lookup_insert_eq; eauto.
Qed.

Lemma fold_left_keeps_key {V B} (f : gmap string V -> B -> gmap string V) (l : list B)
  (u : gmap string V) (k : string) :
  (forall u b, is_Some (u !! k) -> is_Some (f u b !! k)) ->
  is_Some (u !! k) -> is_Some (fold_left f l u !! k).
Proof.
  intros Hf. apply (fold_left_invariant (fun u => is_Some (u !! k))).
  intros a b _. apply Hf.
Qed.

Lemma fold_left_adds_key {V B} (f : gmap string V -> B -> gmap string V) (l : list B)
  (u : gmap string V) (k : string) (b : B) :
  (forall u b, is_Some (u !! k) -> is_Some (f u b !! k)) ->
  In b l -> (forall u, is_Some (f u b !! k)) -> is_Some (fold_left f l u !! k).
Proof.
  intros Hf. revert u. induction l as [|b' l IH]; intros u Hin Hb; simpl; [destruct Hin|].
  destruct Hin as [<-|Hin].
  - apply fold_left_keeps_key; [exact Hf|apply Hb].
  - apply IH; assumption.
Qed.

Lemma createDefBackendUpstream_mono (st : Store) (mci : MCI) (u : Upstreams) (k : string) :
  is_Some (u !! k) -> is_Some (createDefBackendUpstream st mci u !! k).
Proof.
  intros H. unfold createDefBackendUpstream.
  repeat case_match; try exact H; apply insert_is_Some_mono; exact H.
Qed.

Lemma createRuleUpstreams_mono (st : Store) (mci : MCI) (u : Upstreams) (r : Rule)
  (k : string) :
  is_Some (u !! k) -> is_Some (createRuleUpstreams st mci u r !! k).
Proof. intros [b Hb]. exists b. apply createRuleUpstreams_keeps_entry. exact Hb. Qed.

Lemma createMCIUpstreams_mono (st : Store) (u : Upstreams) (mci : MCI) (k : string) :
  is_Some (u !! k) -> is_Some (createMCIUpstreams st u mci !! k).
Proof.
  intros H. unfold createMCIUpstreams. apply fold_left_keeps_key.
  - intros u' r. apply createRuleUpstreams_mono.
  - apply createDefBackendUpstream_mono. exact H.
Qed.

Lemma createMCIUpstreams_adds (st : Store) (u : Upstreams) (mci : MCI) :
  (forall svc, m_default_backend mci = Some svc ->
     is_Some (createMCIUpstreams st u mci !! upstreamName (m_namespace mci) svc)) /\
  (forall r paths path svc, In r (m_rules mci) -> r_http r = Some paths ->
     In path paths -> p_service path = Some svc ->
     is_Some (createMCIUpstreams st u mci !! upstreamName (m_namespace mci) svc)).
Proof.
  unfold createMCIUpstreams. split.
  - intros svc Hd. apply fold_left_keeps_key; [intros u' r; apply createRuleUpstreams_mono|].
    unfold createDefBackendUpstream. rewrite Hd.
    repeat case_match; rewrite lookup_insert_eq; eauto.
  - intros r paths path svc Hr Hh Hp Hs.
    apply (fold_left_adds_key _ _ _ _ r); [intros u' r'; apply createRuleUpstreams_mono|exact Hr|].
    intros u'. unfold createRuleUpstreams. rewrite Hh.
    apply (fold_left_adds_key _ _ _ _ path);
      [intros u'' p; apply createPathUpstream_mono|exact Hp|].
    intros u''. apply createPathUpstream_adds. exact Hs.
Qed.

(** After [createUpstreamsFromMCIs], the default upstream is present and
    every service a resource names, as its default backend or on a rule
    path, has an upstream under its name. *)
Theorem createUpstreamsFromMCIs_complete (st : Store) (mcis : list MCI) (du : Backend)
  (mci : MCI) :
  In mci mcis ->
  is_Some (createUpstreamsFromMCIs st mcis du !! defUpstreamName) /\
  (forall svc, m_default_backend mci = Some svc ->
     is_Some (createUpstreamsFromMCIs st mcis du !! upstreamName (m_namespace mci) svc)) /\
  (forall r paths path svc, In r (m_rules mci) -> r_http r = Some paths ->
     In path paths -> p_service path = Some svc ->
     is_Some (createUpstreamsFromMCIs st mcis du !! upstreamName (m_namespace mci) svc)).
Proof.
  intros Hin. unfold createUpstreamsFromMCIs.
  assert (Hmono : forall k (u : Upstreams) (m : MCI),
            is_Some (u !! k) -> is_Some (createMCIUpstreams st u m !! k))
    by (intros k u m; apply createMCIUpstreams_mono).
  split; [|split].
  - apply fold_left_keeps_key; [intros u m; apply Hmono|].
    rewrite lookup_singleton_eq. eauto.
  - intros svc Hd. apply (fold_left_adds_key _ _ _ _ mci); [intros u m; apply Hmono|exact Hin|].
    intros u. apply (proj1 (createMCIUpstreams_adds st u mci)). exact Hd.
  - intros r paths path svc Hr Hh Hp Hs.
    apply (fold_left_adds_key _ _ _ _ mci); [intros u m; apply Hmono|exact Hin|].
    intros u. exact (proj2 (createMCIUpstreams_adds st u mci) r paths path svc Hr Hh Hp Hs).
Qed.

Lemma createUpstreamsFromMCIs_complete_witness :
  In rulesAndBackendMCI [overlapFoo; rulesAndBackendMCI] /\
  is_Some (createUpstreamsFromMCIs st0 [overlapFoo; rulesAndBackendMCI]
             (getDefaultUpstream st0) !! defUpstreamName) /\
  (forall svc, m_default_backend rulesAndBackendMCI = Some svc ->
     is_Some (createUpstreamsFromMCIs st0 [overlapFoo; rulesAndBackendMCI]
                (getDefaultUpstream st0) !! upstreamName (m_namespace rulesAndBackendMCI) svc)) /\
  (forall r paths path svc, In r (m_rules rulesAndBackendMCI) -> r_http r = Some paths ->
     In path paths -> p_service path = Some svc ->
     is_Some (createUpstreamsFromMCIs st0 [overlapFoo; rulesAndBackendMCI]
                (getDefaultUpstream st0) !! upstreamName (m_namespace rulesAndBackendMCI) svc)).
Proof.
  assert (H : In rulesAndBackendMCI [overlapFoo; rulesAndBackendMCI]) by (simpl; auto).
  split; [exact H|].
  exact (createUpstreamsFromMCIs_complete st0 _ (getDefaultUpstream st0) _ H).
Defined.

(** ** The first server pass *)

Lemma pass1_rules_adds (un : string) (mci : MCI) (rules : list Rule)
  (servers : Servers) (r : Rule) :
  In r rules ->
  is_Some (fold_left
    (fun servers rule =>
       let host := ruleHost rule in
       match servers !! host with
       | Some _ => servers
       | None =>
           <[host := mkServer host [placeholderLocation un mci] None
                       (a_ssl_passthrough (m_anns mci)) (a_ssl_ciphers (m_anns mci))
                       false]> servers
       end) rules servers !! ruleHost r).
Proof.
  revert servers. induction rules as [|r' rules IH]; intros servers Hin; [destruct Hin|].
  simpl. destruct Hin as [->|Hin]; [|apply IH; exact Hin].
  destruct (servers !! ruleHost r) as [v|] eqn:Hh.
  - exists v. apply pass1_rules_keep. exact Hh.
  - eexists. apply pass1_rules_keep. apply lookup_insert_eq.
Qed.

Lemma bindCatchAll_mono (mci : MCI) (bu : Backend) (servers : Servers) (k : string) :
  is_Some (servers !! k) -> is_Some (bindCatchAll mci bu servers !! k).
Proof.
  intros H. unfold bindCatchAll.
  repeat case_match; try exact H; apply insert_is_Some_mono; exact H.
Qed.

Lemma createServersPass1_mono (ups : Upstreams) (du : Backend) (servers : Servers)
  (mci : MCI) (k : string) :
  is_Some (servers !! k) -> is_Some (createServersPass1 ups du servers mci !! k).
Proof.
  intros [v Hv]. unfold createServersPass1. destruct (isCanary mci); [eauto|].
  destruct (match m_default_backend mci with
            | Some svc => _ | None => _ end) as [un s1] eqn:Hm.
  assert (H1 : is_Some (s1 !! k)).
  { destruct (m_default_backend mci) as [svc|]; [|injection Hm as _ <-; eauto].
    destruct (ups !! _); injection Hm as _ <-; [apply bindCatchAll_mono|]; eauto. }
  destruct H1 as [v1 Hv1]. exists v1. apply pass1_rules_keep. exact Hv1.
Qed.

Lemma createServersPass1_hosts_gen (st : Store) (ups : Upstreams) (du : Backend)
  (mcis : list MCI) (mci : MCI) (r : Rule) :
  In mci mcis -> isCanary mci = false -> In r (m_rules mci) ->
  is_Some (fold_left (createServersPass1 ups du) mcis (initialServers st du)
             !! defServerName) /\
  is_Some (fold_left (createServersPass1 ups du) mcis (initialServers st du)
             !! ruleHost r).
Proof.
  intros Hin Hc Hr. split.
  - apply fold_left_keeps_key; [intros u m; apply createServersPass1_mono|].
    unfold initialServers. rewrite lookup_singleton_eq. eauto.
  - apply (fold_left_adds_key _ _ _ _ mci);
      [intros u m; apply createServersPass1_mono|exact Hin|].
    intros u. unfold createServersPass1. rewrite Hc.
    destruct (match m_default_backend mci with
              | Some svc => _ | None => _ end) as [un s1].
    apply pass1_rules_adds. exact Hr.
Qed.

(** After the first server pass the catch-all server exists, and every
    rule host of every non-canary resource has a server. *)
Theorem createServersPass1_hosts (st : Store) (ups : Upstreams) (du : Backend)
  (mcis : list MCI) (mci : MCI) (r : Rule) :
  In mci mcis -> isCanary mci = false -> In r (m_rules mci) ->
  is_Some (fold_left (createServersPass1 ups du) mcis (initialServers st du)
             !! defServerName) /\
  is_Some (fold_left (createServersPass1 ups du) mcis (initialServers st du)
             !! ruleHost r).
Proof. apply createServersPass1_hosts_gen. Qed.

Lemma createServersPass1_hosts_witness :
  In hostBMCI [overlapFoo; hostBMCI] /\ isCanary hostBMCI = false /\
  In (mkRule "b.com" (Some [prefixPath "/" svc2])) (m_rules hostBMCI) /\
  is_Some (fold_left (createServersPass1 (loopUpstreams st0 [overlapFoo; hostBMCI])
                        (getDefaultUpstream st0)) [overlapFoo; hostBMCI]
             (initialServers st0 (getDefaultUpstream st0)) !! defServerName) /\
  is_Some (fold_left (createServersPass1 (loopUpstreams st0 [overlapFoo; hostBMCI])
                        (getDefaultUpstream st0)) [overlapFoo; hostBMCI]
             (initialServers st0 (getDefaultUpstream st0))
             !! ruleHost (mkRule "b.com" (Some [prefixPath "/" svc2]))).
Proof.
  assert (H1 : In hostBMCI [overlapFoo; hostBMCI]) by (simpl; auto).
  assert (H2 : isCanary hostBMCI = false) by reflexivity.
  assert (H3 : In (mkRule "b.com" (Some [prefixPath "/" svc2])) (m_rules hostBMCI))
    by (simpl; auto).
  split; [exact H1|]. split; [exact H2|]. split; [exact H3|].
  exact (createServersPass1_hosts st0 _ _ _ _ _ H1 H2 H3).
Defined.

(** ** The second server pass *)

Lemma pass2Frame_refl (s : Server) : pass2Frame s s.
Proof. unfold pass2Frame. repeat split; auto. Qed.

Lemma pass2Frame_trans (s1 s2 s3 : Server) :
  pass2Frame s1 s2 -> pass2Frame s2 s3 -> pass2Frame s1 s3.
Proof.
  unfold pass2Frame. intros (A1 & B1 & C1 & D1 & E1) (A2 & B2 & C2 & D2 & E2).
  repeat split; try congruence.
  - intros c Hc. apply D2, D1, Hc.
  - intros Hne. rewrite E2, E1 by (try rewrite E1; auto). reflexivity.
Qed.

Lemma serverTLSStep_frame (st : Store) (mci : MCI) (host : string) (s : Server) :
  pass2Frame s (fst (serverTLSStep st mci host s)).
Proof.
  unfold serverTLSStep. destruct (s_ssl_cert s) eqn:Hc; [apply pass2Frame_refl|].
  repeat case_match; simpl; unfold pass2Frame; simpl; repeat split; auto;
    intros c0 Hc0; congruence.
Qed.

Lemma createServersPass2Rule_frame (st : Store) (mci : MCI) (acc : Servers * list LogEntry)
  (r : Rule) (k : string) (s : Server) :
  (exists s', fst acc !! k = Some s' /\ pass2Frame s s') ->
  exists s', fst (createServersPass2Rule st mci acc r) !! k = Some s' /\ pass2Frame s s'.
Proof.
  destruct acc as [servers lg]. simpl. intros (s' & Hk & Hf).
  unfold createServersPass2Rule.
  destruct (servers !! ruleHost r) as [s0|] eqn:Hs; [|exists s'; auto].
  pose proof (serverTLSStep_frame st mci (ruleHost r)
    (if String.eqb (s_ssl_ciphers s0) "" && negb (String.eqb (a_ssl_ciphers (m_anns mci)) "")
     then set_ssl_ciphers s0 (a_ssl_ciphers (m_anns mci)) else s0)) as Ht.
  destruct (serverTLSStep st mci (ruleHost r) _) as [s2 lg2]. simpl in Ht |- *.
  destruct (decide (ruleHost r = k)) as [<-|Hne].
  - rewrite lookup_insert_eq. exists s2. split; [reflexivity|].
    assert (s0 = s') by congruence. subst s0.
    apply (pass2Frame_trans _ s'); [exact Hf|].
    apply (pass2Frame_trans _ (if String.eqb (s_ssl_ciphers s') "" &&
                                  negb (String.eqb (a_ssl_ciphers (m_anns mci)) "")
                               then set_ssl_ciphers s' (a_ssl_ciphers (m_anns mci))
                               else s')); [|exact Ht].
    destruct (String.eqb (s_ssl_ciphers s') "") eqn:He; simpl; [|apply pass2Frame_refl].
    destruct (negb _); simpl; [|apply pass2Frame_refl].
    unfold pass2Frame; simpl. repeat split; auto.
    intros Hne. apply String.eqb_eq in He. contradiction.
  - rewrite lookup_insert_ne by exact Hne. exists s'. auto.
Qed.

Lemma createServersPass2_frame_gen (st : Store) (mcis : list MCI) (servers : Servers)
  (lg : list LogEntry) (k : string) (s : Server) :
  servers !! k = Some s ->
  exists s', fst (fold_left (createServersPass2 st) mcis (servers, lg)) !! k = Some s' /\
             pass2Frame s s'.
Proof.
  intros Hk.
  apply (fold_left_invariant (fun a => exists s', fst a !! k = Some s' /\ pass2Frame s s')).
  - intros acc mci _ H. unfold createServersPass2. destruct (isCanary mci); [exact H|].
    apply (fold_left_invariant (fun a => exists s', fst a !! k = Some s' /\ pass2Frame s s'));
      [|exact H].
    intros a r _. apply createServersPass2Rule_frame.
  - exists s. split; [exact Hk|apply pass2Frame_refl].
Qed.

(** The second server pass keeps every server under its key with its host
    name, locations and passthrough flag; a certificate or SSL ciphers a
    server already has are never replaced. *)
Theorem createServersPass2_frame (st : Store) (mcis : list MCI) (servers : Servers)
  (lg : list LogEntry) (k : string) (s : Server) :
  servers !! k = Some s ->
  exists s', fst (fold_left (createServersPass2 st) mcis (servers, lg)) !! k = Some s' /\
             pass2Frame s s'.
Proof. apply createServersPass2_frame_gen. Qed.

Lemma createServersPass2_frame_witness :
  let servers := initialServers tlsStore (getDefaultUpstream tlsStore) in
  let s := mkServer defServerName [defaultRootLocation (getDefaultUpstream tlsStore)]
             (Some (st_default_ssl_cert tlsStore)) false "" false in
  servers !! defServerName = Some s /\
  exists s', fst (fold_left (createServersPass2 tlsStore) [catchTLSMCI] (servers, []))
               !! defServerName = Some s' /\ pass2Frame s s'.
Proof.
  cbv zeta.
  assert (H : initialServers tlsStore (getDefaultUpstream tlsStore) !! defServerName
              = Some (mkServer defServerName [defaultRootLocation (getDefaultUpstream tlsStore)]
                        (Some (st_default_ssl_cert tlsStore)) false "" false))
    by (unfold initialServers; apply lookup_singleton_eq).
  split; [exact H|].
  exact (createServersPass2_frame tlsStore [catchTLSMCI] _ [] _ _ H).
Defined.

(** ** The location loop *)

Lemma sameKeys_refl {V} (m : gmap string V) : sameKeys m m.
Proof. intros k. reflexivity. Qed.

Lemma sameKeys_insert_existing {V} (m m' : gmap string V) (k : string) (v v' : V) :
  sameKeys m m' -> m' !! k = Some v -> sameKeys m (<[k := v']> m').
Proof.
  intros H Hk k'. rewrite <- (H k'). destruct (decide (k = k')) as [<-|Hne].
  - rewrite lookup_insert_eq, Hk. split; eauto.
  - rewrite lookup_insert_ne by exact Hne. reflexivity.
Qed.

Lemma locationPathStep_sameKeys (u0 : Upstreams) (s0 : Servers) (mci : MCI) (skey : string)
  (acc : option (Upstreams * Servers)) (path : HTTPPath) :
  accSameKeys u0 s0 acc -> accSameKeys u0 s0 (locationPathStep mci skey acc path).
Proof.
  unfold accSameKeys, locationPathStep. destruct acc as [[ups servers]|]; [|auto]. intros [Hu Hs].
  destruct (p_service path) as [svc|]; [|auto].
  destruct (ups !! _) as [x|] eqn:Hx; [|exact I].
  destruct (b_noserver x); [auto|].
  destruct (servers !! skey) as [server|] eqn:Hsv; [|exact I].
  destruct (addOrReplaceLocation _ _ _ _ _) as [[addLoc www] locs].
  destruct (if addLoc then _ else _) as [locs' www'].
  split; [eapply sameKeys_insert_existing; eauto|eapply sameKeys_insert_existing; eauto].
Qed.

Lemma locationsFromMCIs_same_keys_gen (mcis : list MCI) (u : Upstreams) (s : Servers)
  (u' : Upstreams) (s' : Servers) :
  locationsFromMCIs mcis (Some (u, s)) = Some (u', s') ->
  sameKeys u u' /\ sameKeys s s'.
Proof.
  intros H.
  pose proof (fold_left_invariant (accSameKeys u s)
    (fun acc mci => fold_left (locationRuleStep mci) (m_rules mci) acc) mcis (Some (u, s)))
    as Hf.
  unfold locationsFromMCIs in H. rewrite H in Hf. apply Hf.
  - intros a mci _. apply (fold_left_invariant (accSameKeys u s)).
    intros [[ups servers]|] r _ Ha; [|exact I]. unfold locationRuleStep.
    destruct (isNone (r_http r) && _); [exact Ha|].
    destruct (servers !! _); [|exact I].
    destruct (r_http r) as [paths|]; [|exact Ha].
    apply (fold_left_invariant (accSameKeys u s)); [|exact Ha].
    intros a' p _. apply locationPathStep_sameKeys.
  - split; apply sameKeys_refl.
Qed.

(** The location loop neither adds nor removes an upstream or a server:
    it only rewrites entries already in the maps. *)
Theorem locationsFromMCIs_same_keys (mcis : list MCI) (u : Upstreams) (s : Servers)
  (u' : Upstreams) (s' : Servers) :
  locationsFromMCIs mcis (Some (u, s)) = Some (u', s') ->
  sameKeys u u' /\ sameKeys s s'.
Proof. apply locationsFromMCIs_same_keys_gen. Qed.

Lemma locationsFromMCIs_same_keys_witness :
  exists u' s',
    locationsFromMCIs [overlapFoo; overlapBar]
      (Some (loopUpstreams st0 [overlapFoo; overlapBar],
             loopServers st0 [overlapFoo; overlapBar])) = Some (u', s') /\
    sameKeys (loopUpstreams st0 [overlapFoo; overlapBar]) u' /\
    sameKeys (loopServers st0 [overlapFoo; overlapBar]) s'.
Proof.
  destruct (locationsFromMCIs [overlapFoo; overlapBar]
              (Some (loopUpstreams st0 [overlapFoo; overlapBar],
                     loopServers st0 [overlapFoo; overlapBar]))) as [[u' s']|] eqn:H;
    [|vm_compute in H; discriminate].
  exists u', s'. split; [reflexivity|].
  exact (locationsFromMCIs_same_keys _ _ _ _ _ H).
Defined.

Lemma addOrReplaceLocation_keeps (mci : MCI) (ups : Backend) (nginxPath : string)
  (pt : option PathType) (locs : list Location) (l : Location) :
  In l locs -> l_is_def_backend l = false ->
  In l (snd (addOrReplaceLocation mci ups nginxPath pt locs)).
Proof.
  induction locs as [|loc rest IH]; simpl; [tauto|]. intros Hin Hd.
  destruct (negb (String.eqb (l_path loc) nginxPath)).
  - destruct (addOrReplaceLocation mci ups nginxPath pt rest) as [[a w] rest'] eqn:Hr.
    simpl. destruct Hin as [<-|Hin]; [left; reflexivity|right].
    exact (IH Hin Hd).
  - destruct (negb (pathTypeDeepEqual (l_path_type loc) pt)); [exact Hin|].
    destruct (l_is_def_backend loc) eqn:Hl; simpl; [|exact Hin].
    destruct Hin as [<-|Hin]; [congruence|right; exact Hin].
Qed.

Lemma locationPathStep_keeps (mci : MCI) (skey : string) (acc : option (Upstreams * Servers))
  (path : HTTPPath) (k : string) (l : Location) :
  l_is_def_backend l = false ->
  accKeepsLocation k l acc -> accKeepsLocation k l (locationPathStep mci skey acc path).
Proof.
  intros Hd. unfold accKeepsLocation, locationPathStep. destruct acc as [[ups servers]|]; [|auto].
  intros (srv & Hk & Hin).
  destruct (p_service path) as [svc|]; [|eauto].
  destruct (ups !! _) as [x|]; [|exact I].
  destruct (b_noserver x); [eauto|].
  destruct (servers !! skey) as [server|] eqn:Hsv; [|exact I].
  destruct (decide (skey = k)) as [<-|Hne].
  - assert (server = srv) by congruence. subst server.
    pose proof (addOrReplaceLocation_keeps mci x
      (if String.eqb (p_path path) "" then rootLocation else p_path path)
      (p_type path) (s_locations srv) l Hin Hd) as Hk'.
    destruct (addOrReplaceLocation _ _ _ _ _) as [[addLoc www] locs]. simpl in Hk'.
    assert (Hl : forall locs' www',
      (if addLoc then ((locs ++ [newLocation mci x
          (if String.eqb (p_path path) "" then rootLocation else p_path path) (p_type path)])%list,
          www || red_from_to_www (l_redirect (newLocation mci x
          (if String.eqb (p_path path) "" then rootLocation else p_path path) (p_type path))))
       else (locs, www)) = (locs', www') -> In l locs').
    { intros locs' www' Heq. destruct addLoc; injection Heq as <- _;
        [apply in_or_app; left|]; exact Hk'. }
    destruct (if addLoc then _ else _) as [locs' www'] eqn:Hif.
    simpl. rewrite lookup_insert_eq. eexists. split; [reflexivity|].
    destruct www'; simpl; exact (Hl _ _ eq_refl).
  - destruct (addOrReplaceLocation _ _ _ _ _) as [[addLoc www] locs].
    destruct (if addLoc then _ else _) as [locs' www']. simpl.
    rewrite lookup_insert_ne by exact Hne. eauto.
Qed.

(** The location loop never drops a location that is not a placeholder:
    such a location stays on its server (first writer wins for a path and
    path type). *)
Theorem locationsFromMCIs_keeps_locations (mcis : list MCI) (u : Upstreams) (s : Servers)
  (u' : Upstreams) (s' : Servers) (k : string) (srv : Server) (l : Location) :
  locationsFromMCIs mcis (Some (u, s)) = Some (u', s') ->
  s !! k = Some srv -> In l (s_locations srv) -> l_is_def_backend l = false ->
  exists srv', s' !! k = Some srv' /\ In l (s_locations srv').
Proof.
  intros H Hk Hin Hd.
  pose proof (fold_left_invariant (accKeepsLocation k l)
    (fun acc mci => fold_left (locationRuleStep mci) (m_rules mci) acc) mcis (Some (u, s)))
    as Hf.
  unfold locationsFromMCIs in H. rewrite H in Hf. apply Hf.
  - intros a mci _. apply (fold_left_invariant (accKeepsLocation k l)).
    intros [[ups servers]|] r _ Ha; [|exact I]. unfold locationRuleStep.
    destruct (isNone (r_http r) && _); [exact Ha|].
    destruct (servers !! _); [|exact I].
    destruct (r_http r) as [paths|]; [|exact Ha].
    apply (fold_left_invariant (accKeepsLocation k l)); [|exact Ha].
    intros a' p _. apply locationPathStep_keeps. exact Hd.
  - exists srv. auto.
Qed.

Lemma locationsFromMCIs_keeps_locations_witness :
  let mcis := [defBackendMCI "d" ""; catchRootMCI] in
  let srv := match loopServers st0 mcis !! defServerName with
             | Some x => x | None => tlsServer end in
  let l := hd (defaultRootLocation (getDefaultUpstream st0)) (s_locations srv) in
  exists u' s',
    locationsFromMCIs mcis (Some (loopUpstreams st0 mcis, loopServers st0 mcis))
      = Some (u', s') /\
    loopServers st0 mcis !! defServerName = Some srv /\ In l (s_locations srv) /\
    l_is_def_backend l = false /\
    exists srv', s' !! defServerName = Some srv' /\ In l (s_locations srv').
Proof.
  cbv zeta.
  destruct (locationsFromMCIs [defBackendMCI "d" ""; catchRootMCI]
              (Some (loopUpstreams st0 [defBackendMCI "d" ""; catchRootMCI],
                     loopServers st0 [defBackendMCI "d" ""; catchRootMCI])))
    as [[u' s']|] eqn:H; [|vm_compute in H; discriminate].
  assert (H1 : loopServers st0 [defBackendMCI "d" ""; catchRootMCI] !! defServerName
    = Some (match loopServers st0 [defBackendMCI "d" ""; catchRootMCI] !! defServerName
            with Some x => x | None => tlsServer end)) by (vm_compute; reflexivity).
  assert (H2 : In (hd (defaultRootLocation (getDefaultUpstream st0))
                      (s_locations (match loopServers st0 [defBackendMCI "d" ""; catchRootMCI]
                                          !! defServerName with
                                    | Some x => x | None => tlsServer end)))
                  (s_locations (match loopServers st0 [defBackendMCI "d" ""; catchRootMCI]
                                      !! defServerName with
                                | Some x => x | None => tlsServer end)))
    by (vm_compute; left; reflexivity).
  assert (H3 : l_is_def_backend (hd (defaultRootLocation (getDefaultUpstream st0))
                      (s_locations (match loopServers st0 [defBackendMCI "d" ""; catchRootMCI]
                                          !! defServerName with
                                    | Some x => x | None => tlsServer end))) = false)
    by (vm_compute; reflexivity).
  exists u', s'. split; [reflexivity|]. split; [exact H1|]. split; [exact H2|].
  split; [exact H3|].
  exact (locationsFromMCIs_keeps_locations _ _ _ _ _ _ _ _ H H1 H2 H3).
Defined.

(** ** The canary merger *)

Lemma mergeFrame_refl (b : Backend) : mergeFrame b b.
Proof. unfold mergeFrame. repeat split; auto. exists []. now rewrite app_nil_r. Qed.

Lemma mergeFrame_trans (b1 b2 b3 : Backend) :
  mergeFrame b1 b2 -> mergeFrame b2 b3 -> mergeFrame b1 b3.
Proof.
  unfold mergeFrame.
  intros (A1 & B1 & C1 & D1 & E1 & F1 & G1 & H1 & I1 & x1 & J1)
         (A2 & B2 & C2 & D2 & E2 & F2 & G2 & H2 & I2 & x2 & J2).
  repeat split; try congruence. exists (x1 ++ x2)%list. rewrite J2, J1. now rewrite app_assoc.
Qed.

Lemma mergeAlternativeBackendByMCI_frame (mci : MCI) (pri alt : Backend) :
  mergeFrame pri (snd (fst (mergeAlternativeBackendByMCI mci pri alt))) /\
  mergeFrame alt (snd (mergeAlternativeBackendByMCI mci pri alt)).
Proof.
  unfold mergeAlternativeBackendByMCI.
  destruct (b_noserver pri); [split; apply mergeFrame_refl|].
  destruct (existsb _ _); [split; apply mergeFrame_refl|]. simpl. split.
  - unfold mergeFrame; simpl. repeat split; auto. eexists. reflexivity.
  - destruct (negb _); [|apply mergeFrame_refl].
    unfold mergeFrame; simpl. repeat split; auto. exists []. now rewrite app_nil_r.
Qed.

Lemma upstreamsFrame_refl (u : Upstreams) : upstreamsFrame u u.
Proof. intros k b' H. exists b'. split; [exact H|apply mergeFrame_refl]. Qed.

Lemma upstreamsFrame_insert (u0 u : Upstreams) (k : string) (b v : Backend) :
  upstreamsFrame u0 u -> u0 !! k = Some b -> mergeFrame b v ->
  upstreamsFrame u0 (<[k := v]> u).
Proof.
  intros Hu Hb Hv k' b'. destruct (decide (k = k')) as [<-|Hne].
  - rewrite lookup_insert_eq. intros [= <-]. exists b. auto.
  - rewrite lookup_insert_ne by exact Hne. apply Hu.
Qed.

Lemma upstreamsFrame_delete (u0 u : Upstreams) (k : string) :
  upstreamsFrame u0 u -> upstreamsFrame u0 (delete k u).
Proof. intros Hu k' b' H. apply lookup_delete_Some in H as [_ H]. exact (Hu k' b' H). Qed.

Lemma upstreamsFrame_trans (u1 u2 u3 : Upstreams) :
  upstreamsFrame u1 u2 -> upstreamsFrame u2 u3 -> upstreamsFrame u1 u3.
Proof.
  intros H12 H23 k b3 H3. destruct (H23 k b3 H3) as (b2 & H2 & F23).
  destruct (H12 k b2 H2) as (b1 & H1 & F12). exists b1. split; [exact H1|].
  exact (mergeFrame_trans _ _ _ F12 F23).
Qed.

Lemma scanLocations_frame (u0 : Upstreams) (mci : MCI) (matches : Location -> option bool)
  (altKey : string) (locs : list Location) (cur : Upstreams) (altUps : Backend)
  (merged : bool) (ups' : Upstreams) (a' : Backend) (m' e' : bool) :
  upstreamsFrame u0 cur ->
  (exists b, u0 !! altKey = Some b /\ mergeFrame b altUps) ->
  scanLocations mci matches altKey locs cur altUps merged = Some (ups', a', m', e') ->
  upstreamsFrame u0 ups'.
Proof.
  revert cur altUps merged. induction locs as [|loc rest IH];
    intros cur altUps merged Hcur Halt; simpl.
  - intros [= <- _ _ _]. exact Hcur.
  - destruct (cur !! l_backend loc) as [priUps|] eqn:Hp; [|discriminate].
    destruct (String.eqb (b_name altUps) (b_name priUps)); [intros [= <- _ _ _]; exact Hcur|].
    destruct (canMergeBackend priUps altUps); [|apply IH; assumption].
    destruct (matches loc) as [[]|]; [|apply IH; assumption|discriminate].
    pose proof (mergeAlternativeBackendByMCI_frame mci priUps altUps) as [Fp Fa].
    destruct (mergeAlternativeBackendByMCI mci priUps altUps) as [[m pri'] alt'].
    simpl in Fp, Fa. apply IH.
    + destruct Halt as (b & Hb & Fb).
      destruct (Hcur _ _ Hp) as (bp & Hbp & Fbp).
      apply (upstreamsFrame_insert _ _ _ b); [|exact Hb|exact (mergeFrame_trans _ _ _ Fb Fa)].
      apply (upstreamsFrame_insert _ _ _ bp); [exact Hcur|exact Hbp|].
      exact (mergeFrame_trans _ _ _ Fbp Fp).
    + destruct Halt as (b & Hb & Fb). exists b. split; [exact Hb|].
      exact (mergeFrame_trans _ _ _ Fb Fa).
Qed.

Lemma mergeCatchAll_frame (u0 : Upstreams) (mci : MCI) (servers : Servers)
  (cur u' : Upstreams) :
  upstreamsFrame u0 cur -> mergeCatchAll mci servers cur = Some u' -> upstreamsFrame u0 u'.
Proof.
  intros Hcur. unfold mergeCatchAll.
  destruct (m_default_backend mci) as [svc|]; [|intros [= <-]; exact Hcur].
  destruct (cur !! _) as [altUps|] eqn:Ha; [|intros [= <-]; exact Hcur].
  destruct (servers !! defServerName) as [s|]; [|discriminate].
  destruct (scanLocations _ _ _ _ _ _ _) as [[[[ups' a'] m'] e']|] eqn:Hs; [|discriminate].
  intros [= <-].
  assert (Hf : upstreamsFrame u0 ups').
  { eapply scanLocations_frame; [exact Hcur| |exact Hs].
    destruct (Hcur _ _ Ha) as (b & Hb & Fb). exists b. auto. }
  destruct (negb e' && negb m'); [apply upstreamsFrame_delete|]; exact Hf.
Qed.

Lemma mergeRule_frame (u0 : Upstreams) (mci : MCI) (servers : Servers)
  (acc : option Upstreams) (r : Rule) :
  (forall cur, acc = Some cur -> upstreamsFrame u0 cur) ->
  forall u', mergeRule mci servers acc r = Some u' -> upstreamsFrame u0 u'.
Proof.
  intros Hacc. unfold mergeRule.
  destruct acc as [cur|]; [|discriminate].
  destruct (r_http r) as [paths|]; [|discriminate].
  apply (fold_left_invariant
           (fun a => forall cur, a = Some cur -> upstreamsFrame u0 cur)); [|exact Hacc].
  intros [c|] p _ Hc; [|unfold mergePath; discriminate].
  unfold mergePath. destruct (p_service p) as [svc|]; [|exact Hc].
  destruct (c !! _) as [altUps|] eqn:Ha; [|exact Hc].
  destruct (servers !! _) as [s|]; [|exact Hc].
  destruct (scanLocations _ _ _ _ _ _ _) as [[[[ups' a'] m'] e']|] eqn:Hs; [|discriminate].
  intros c' [= <-].
  assert (Hf : upstreamsFrame u0 ups').
  { eapply scanLocations_frame; [exact (Hc c eq_refl)| |exact Hs].
    destruct (Hc c eq_refl _ _ Ha) as (b & Hb & Fb). exists b. auto. }
  destruct (negb e' && negb m'); [apply upstreamsFrame_delete|]; exact Hf.
Qed.

Lemma mergeAlternativeBackendsByMCI_frame (mci : MCI) (u : Upstreams) (servers : Servers)
  (u' : Upstreams) :
  mergeAlternativeBackendsByMCI mci u servers = Some u' -> upstreamsFrame u u'.
Proof.
  unfold mergeAlternativeBackendsByMCI. intros H.
  apply (fold_left_invariant
           (fun a => forall cur, a = Some cur -> upstreamsFrame u cur)
           (mergeRule mci servers) (m_rules mci)) in H; [exact H| |].
  - intros a r _ Ha. apply mergeRule_frame. exact Ha.
  - intros cur Hc. exact (mergeCatchAll_frame u mci servers u cur (upstreamsFrame_refl u) Hc).
Qed.

(** The canary merger adds no upstream and changes a remaining backend
    only by appending alternative backends and setting its affinity type:
    name, port, endpoints, [NoServer] flag, traffic shaping policy and the
    other fields stay. *)
Theorem mergeCanaries_frame (canaryMCIs : list MCI) (servers : Servers) (u u' : Upstreams) :
  mergeCanaries canaryMCIs servers u = Some u' -> upstreamsFrame u u'.
Proof.
  unfold mergeCanaries. intros H.
  apply (fold_left_invariant (fun a => forall cur, a = Some cur -> upstreamsFrame u cur))
    in H; [exact H| |].
  - intros [cur|] mci _ Ha; [|discriminate]. intros c' Hc'.
    apply (upstreamsFrame_trans _ cur); [exact (Ha cur eq_refl)|].
    exact (mergeAlternativeBackendsByMCI_frame _ _ _ _ Hc').
  - intros cur [= <-]. apply upstreamsFrame_refl.
Qed.

Lemma mergeCanaries_frame_witness :
  let acc := match locationsFromMCIs [primaryRoot; canaryRoot]
                     (Some (loopUpstreams st0 [primaryRoot; canaryRoot],
                            loopServers st0 [primaryRoot; canaryRoot])) with
             | Some p => p | None => (∅, ∅) end in
  exists u', mergeCanaries [canaryRoot] (snd acc) (fst acc) = Some u' /\
             upstreamsFrame (fst acc) u'.
Proof.
  cbv zeta.
  destruct (mergeCanaries [canaryRoot] _ _) as [u'|] eqn:H;
    [|vm_compute in H; discriminate].
  exists u'. split; [reflexivity|]. exact (mergeCanaries_frame _ _ _ _ H).
Defined.

(** ** Hosts without servers, and the servers of the output *)

Lemma mciForHostPath_other_host (host path : string) (servers : list Server) :
  (forall s, In s servers -> s_hostname s <> host) ->
  mciForHostPath host path servers = Some [].
Proof.
  induction servers as [|s rest IH]; intros H; simpl; [reflexivity|].
  destruct (String.eqb host (s_hostname s)) eqn:He; simpl.
  - apply String.eqb_eq in He. exfalso. apply (H s); [left|]; auto.
  - apply IH. intros s' Hs'. apply H. right. exact Hs'.
Qed.

(** A resource none of whose rule hosts has a server yet is admitted by
    [checkOverlapWithMCI]; with no servers at all every resource is. *)
Theorem checkOverlapWithMCI_disjoint_hosts (mci : MCI) (servers : list Server) :
  (forall r s, In r (m_rules mci) -> In s servers -> s_hostname s <> ruleHost r) ->
  checkOverlapWithMCI mci servers = CheckOK.
Proof.
  unfold checkOverlapWithMCI. induction (m_rules mci) as [|r rules IH]; intros H; simpl;
    [reflexivity|].
  assert (Hr : forall paths, checkPaths mci (ruleHost r) paths servers = None).
  { induction paths as [|path rest IHp]; simpl; [reflexivity|].
    destruct (p_service path) as [svc|]; [|exact IHp].
    rewrite mciForHostPath_other_host; [exact IHp|].
    intros s Hs. apply (H r s); [left; reflexivity|exact Hs]. }
  assert (H' : forall r' s, In r' rules -> In s servers -> s_hostname s <> ruleHost r')
    by (intros r' s Hr' Hs; apply H; [right|]; assumption).
  destruct (r_http r) as [paths|]; [rewrite Hr|]; exact (IH H').
Qed.

Lemma checkOverlapWithMCI_disjoint_hosts_witness :
  let servers := serversOf (getBackendServersFromMCIs st0 [hostBMCI]) in
  (forall r s, In r (m_rules overlapBaz) -> In s servers -> s_hostname s <> ruleHost r) /\
  checkOverlapWithMCI overlapBaz servers = CheckOK.
Proof.
  cbv zeta.
  assert (Hb : forallb (fun r => forallb (fun s => negb (String.eqb (s_hostname s) (ruleHost r)))
                         (serversOf (getBackendServersFromMCIs st0 [hostBMCI])))
                 (m_rules overlapBaz) = true) by (vm_compute; reflexivity).
  assert (H : forall r s, In r (m_rules overlapBaz) ->
                In s (serversOf (getBackendServersFromMCIs st0 [hostBMCI])) ->
                s_hostname s <> ruleHost r).
  { intros r s Hr Hs Heq. rewrite forallb_forall in Hb. specialize (Hb r Hr).
    rewrite forallb_forall in Hb. specialize (Hb s Hs).
    rewrite Heq, String.eqb_refl in Hb. discriminate Hb. }
  split; [exact H|]. exact (checkOverlapWithMCI_disjoint_hosts _ _ H).
Defined.

Lemma assembleUpstream_mono (st : Store) (acc : list Backend * Servers) (u : Backend)
  (k : string) :
  is_Some (snd acc !! k) -> is_Some (snd (assembleUpstream st acc u) !! k).
Proof.
  destruct acc as [aU servers]. simpl. intros Hk. unfold assembleUpstream.
  destruct (String.eqb (b_name u) defUpstreamName); [exact Hk|].
  pose proof (fold_left_invariant (fun a : Servers * list Backend * bool =>
                                     is_Some (fst (fst a) !! k))
    (fun (acc : Servers * list Backend * bool) (kv : string * Server) =>
       let '(servers, nbs, h) := acc in
       let '(locs, nbs', h') :=
         customDefaultBackendLocs st u (snd kv) (s_locations (snd kv)) in
       (<[fst kv := set_locations (snd kv) locs]> servers, (nbs ++ nbs')%list, h || h'))
    (map_to_list servers) (servers, [], false)) as Hf.
  destruct (fold_left _ (map_to_list servers) (servers, [], false))
    as [[servers' nbs] h]. simpl in Hf. simpl. apply Hf; [|exact Hk].
  intros [[acc nbs0] h0] [k' v] _ Hacc. simpl in Hacc |- *.
  destruct (customDefaultBackendLocs st u v (s_locations v)) as [[locs nbs'] h'].
  simpl. apply insert_is_Some_mono. exact Hacc.
Qed.

(** A server present after the first server pass reaches the output of
    [getBackendServersFromMCIs] under its host name. *)
Lemma getBackendServersFromMCIs_server_keys (st : Store) (mcis : list MCI)
  (backends : list Backend) (servers : list Server) (k : string) :
  is_Some (fold_left (createServersPass1 (createUpstreamsFromMCIs st mcis (getDefaultUpstream st))
                        (getDefaultUpstream st)) mcis
             (initialServers st (getDefaultUpstream st)) !! k) ->
  getBackendServersFromMCIs st mcis = Some (backends, servers) ->
  exists s, In s servers /\ s_hostname s = k.
Proof.
  intros Hk. unfold getBackendServersFromMCIs. cbv zeta.
  set (du := getDefaultUpstream st) in *.
  set (ups := createUpstreamsFromMCIs st mcis du) in *.
  assert (H2 : is_Some (fst (createServersFromMCIs st mcis ups du) !! k)).
  { unfold createServersFromMCIs. destruct Hk as [v Hv].
    destruct (createServersPass2_frame_gen st mcis _ [] k v Hv) as (s' & Hs' & _).
    exists s'. exact Hs'. }
  pose proof (locationsFromMCIs_keyed mcis
    (Some (ups, fst (createServersFromMCIs st mcis ups du)))
    (createServersFromMCIs_keyed _ _ _ _)) as Hkey.
  destruct (locationsFromMCIs mcis _) as [[u1 s1]|] eqn:Hl; [|discriminate].
  simpl in Hkey.
  assert (H3 : is_Some (s1 !! k))
    by (apply (proj2 (locationsFromMCIs_same_keys_gen _ _ _ _ _ Hl) k); exact H2).
  destruct (if nonCanaryMCIExists _ _ then _ else _) as [u2|]; [|discriminate].
  pose proof (fold_left_invariant (fun a => keyedServers (snd a) /\ is_Some (snd a !! k))
    (assembleUpstream st) (map snd (map_to_list u2)) ([], s1)
    (fun a b _ Ha => conj (assembleUpstream_keyed st a b (proj1 Ha))
                          (assembleUpstream_mono st a b k (proj2 Ha)))
    (conj Hkey H3)) as Ha.
  destruct (fold_left (assembleUpstream st) _ _) as [aU s2]. simpl in Ha.
  destruct Ha as [Hkey2 [v Hv]].
  intros [= _ <-]. unfold sortBackendsAndServers. simpl.
  exists (set_locations v (sortLocations (s_locations v))). split.
  - apply (Permutation_in _ (Permutation_sym (sliceStable_perm _ _))).
    apply (in_map (fun kv => set_locations (snd kv) (sortLocations (s_locations (snd kv))))
                  _ (k, v)).
    apply list_elem_of_In, elem_of_map_to_list. exact Hv.
  - exact (Hkey2 k v Hv).
Qed.

(** The servers returned by [getBackendServersFromMCIs] include the
    catch-all server and a server for every rule host of every non-canary
    resource. *)
Theorem getBackendServersFromMCIs_hosts (st : Store) (mcis : list MCI)
  (backends : list Backend) (servers : list Server) (mci : MCI) (r : Rule) :
  getBackendServersFromMCIs st mcis = Some (backends, servers) ->
  In mci mcis -> isCanary mci = false -> In r (m_rules mci) ->
  (exists s, In s servers /\ s_hostname s = defServerName) /\
  (exists s, In s servers /\ s_hostname s = ruleHost r).
Proof.
  intros H Hin Hc Hr.
  destruct (createServersPass1_hosts_gen st (createUpstreamsFromMCIs st mcis (getDefaultUpstream st))
              (getDefaultUpstream st) mcis mci r Hin Hc Hr) as [H1 H2].
  split; eapply getBackendServersFromMCIs_server_keys; eauto.
Qed.

Lemma getBackendServersFromMCIs_hosts_witness :
  exists backends servers,
    getBackendServersFromMCIs st0 [overlapFoo; hostBMCI] = Some (backends, servers) /\
    In hostBMCI [overlapFoo; hostBMCI] /\ isCanary hostBMCI = false /\
    In (mkRule "b.com" (Some [prefixPath "/" svc2])) (m_rules hostBMCI) /\
    (exists s, In s servers /\ s_hostname s = defServerName) /\
    (exists s, In s servers /\ s_hostname s = ruleHost (mkRule "b.com" (Some [prefixPath "/" svc2]))).
Proof.
  destruct (getBackendServersFromMCIs st0 [overlapFoo; hostBMCI])
    as [[backends servers]|] eqn:H; [|vm_compute in H; discriminate].
  assert (H1 : In hostBMCI [overlapFoo; hostBMCI]) by (simpl; auto).
  assert (H2 : isCanary hostBMCI = false) by reflexivity.
  assert (H3 : In (mkRule "b.com" (Some [prefixPath "/" svc2])) (m_rules hostBMCI))
    by (simpl; auto).
  exists backends, servers. split; [reflexivity|]. split; [exact H1|]. split; [exact H2|].
  split; [exact H3|]. exact (getBackendServersFromMCIs_hosts st0 _ _ _ _ _ H H1 H2 H3).
Defined.

(** ** SSL passthrough backends *)

Lemma passthroughServer_spec (upd : list Location -> list Location) (server : Server) :
  s_hostname (fst (passthroughServer upd server)) = s_hostname server /\
  snd (passthroughServer upd server) =
    if s_ssl_passthrough server then
      match find (fun loc => String.eqb (l_path loc) rootLocation) (upd (s_locations server)) with
      | None => []
      | Some loc => [mkSSLPassthroughBackend (l_backend loc) (s_hostname server)
                       (l_service loc) (l_port loc)]
      end
    else [].
Proof.
  unfold passthroughServer. simpl.
  destruct (s_ssl_passthrough server); simpl; [|split; reflexivity].
  destruct (find _ _); split; reflexivity.
Qed.

Lemma getConfigurationPassthrough_entries (upd : list Location -> list Location)
  (servers : list Server) (e : SSLPassthroughBackend) :
  In e (snd (getConfigurationPassthrough upd servers)) <->
  exists s loc, In s servers /\ s_ssl_passthrough s = true /\
    find (fun loc => String.eqb (l_path loc) rootLocation) (upd (s_locations s)) = Some loc /\
    e = mkSSLPassthroughBackend (l_backend loc) (s_hostname s) (l_service loc) (l_port loc).
Proof.
  induction servers as [|s rest IH]; simpl.
  { split; [intros []|intros (s & loc & [] & _)]. }
  pose proof (passthroughServer_spec upd s) as [_ Hs].
  destruct (passthroughServer upd s) as [s' pass]. simpl in Hs.
  destruct (getConfigurationPassthrough upd rest) as [rest' passRest]. simpl in IH |- *.
  rewrite in_app_iff, IH. subst pass. split.
  - intros [Hin|(s0 & loc & H0 & H1)].
    + destruct (s_ssl_passthrough s) eqn:Hp; [|destruct Hin].
      destruct (find _ _) as [loc|] eqn:Hf; [|destruct Hin].
      destruct Hin as [<-|[]]. exists s, loc. auto.
    + exists s0, loc. auto.
  - intros (s0 & loc & [<-|H0] & Hp & Hf & ->).
    + left. rewrite Hp, Hf. left. reflexivity.
    + right. exists s0, loc. auto.
Qed.

Lemma getConfigurationPassthrough_NoDup (upd : list Location -> list Location)
  (servers : list Server) :
  List.NoDup (map s_hostname servers) ->
  List.NoDup (map spb_hostname (snd (getConfigurationPassthrough upd servers))).
Proof.
  induction servers as [|s rest IH]; simpl; intros Hnd; [constructor|].
  inversion Hnd as [|h t Hnotin Hnd']; subst.
  pose proof (fun e => proj1 (getConfigurationPassthrough_entries upd rest e)) as Hent.
  pose proof (passthroughServer_spec upd s) as [_ Hs].
  destruct (passthroughServer upd s) as [s' pass]. simpl in Hs.
  destruct (getConfigurationPassthrough upd rest) as [rest' passRest].
  simpl in IH, Hent |- *. specialize (IH Hnd'). subst pass.
  destruct (s_ssl_passthrough s); [|exact IH].
  destruct (find _ _) as [l|]; [|exact IH]. simpl.
  constructor; [|exact IH]. intros Hin. apply in_map_iff in Hin as (e0 & Heq & Hin).
  destruct (Hent e0 Hin) as (s0 & loc & Hs0 & _ & _ & ->).
  apply Hnotin. simpl in Heq. rewrite <- Heq. apply in_map. exact Hs0.
Qed.

(** The SSL passthrough backends [getConfigurationFromMCI] derives from the
    servers of [getBackendServersFromMCIs] have distinct host names.  They
    are exactly one backend per SSL-passthrough server that has a root
    location after [updateServerLocations], whatever that function does:
    the first root location's backend, service and port, with the
    server's host name. *)
Theorem getConfigurationFromMCI_passthrough (st : Store) (mcis : list MCI)
  (upd : list Location -> list Location) (backends : list Backend) (servers : list Server) :
  getBackendServersFromMCIs st mcis = Some (backends, servers) ->
  List.NoDup (map spb_hostname (snd (getConfigurationPassthrough upd servers))) /\
  forall e, In e (snd (getConfigurationPassthrough upd servers)) <->
    exists s loc, In s servers /\ s_ssl_passthrough s = true /\
      find (fun loc => String.eqb (l_path loc) rootLocation) (upd (s_locations s)) = Some loc /\
      e = mkSSLPassthroughBackend (l_backend loc) (s_hostname s) (l_service loc) (l_port loc).
Proof.
  intros H. split.
  - apply getConfigurationPassthrough_NoDup.
    exact (getBackendServersFromMCIs_hostnames_NoDup st mcis backends servers H).
  - apply getConfigurationPassthrough_entries.
Qed.

Lemma getConfigurationFromMCI_passthrough_witness :
  exists backends servers,
    getBackendServersFromMCIs st0 [passthroughMCI; overlapFoo] = Some (backends, servers) /\
    List.NoDup (map spb_hostname (snd (getConfigurationPassthrough (fun locs => locs) servers))) /\
    forall e, In e (snd (getConfigurationPassthrough (fun locs => locs) servers)) <->
      exists s loc, In s servers /\ s_ssl_passthrough s = true /\
        find (fun loc => String.eqb (l_path loc) rootLocation) (s_locations s) = Some loc /\
        e = mkSSLPassthroughBackend (l_backend loc) (s_hostname s) (l_service loc) (l_port loc).
Proof.
  destruct (getBackendServersFromMCIs st0 [passthroughMCI; overlapFoo])
    as [[backends servers]|] eqn:H; [|vm_compute in H; discriminate].
  exists backends, servers. split; [reflexivity|].
  exact (getConfigurationFromMCI_passthrough st0 _ (fun locs => locs) backends servers H).
Defined.
